(** * FormBuilder: conditional visibility and response validation

    A shallow embedding of the visibility resolver [getVisibleFieldIds]
    (client, [FormPreview] in SavedForms.tsx), of the client-side validator
    [validateFormResponse] (components/preview/validateFormResponse.ts; the
    [validate] closure of the older FormPreview has the same body) and of the
    server-side validator [validateResponse] (server validation module).

    Modelling conventions.
    - JavaScript objects used as dictionaries ([values], a dropdown's
      [condition], a table row) are finite maps over their own properties.
      What the resolver does when the branching dropdown's value names a
      member the condition object inherits from [Object.prototype] is
      modelled in [Proto], which agrees with the resolver over own
      properties on every other value.
    - A response value is absent ([undefined]), a string, or an array of row
      objects whose cells are strings, as in the data model. The table
      branch of the validators on any other value, and on arrays with
      missing rows, is modelled in [Wide].
    - Strings are sequences of 8-bit characters; [length] counts them and
      white space is tab, line feed, vertical tab, form feed, carriage return
      and space.
    - [minLength] and [maxLength] are integers, printed in decimal.
    - A [TypeError] raised by the code ([value.trim] on an array) is the
      [None] of the option monad; [Some errors] is a normal return. *)

From stdpp Require Import base option list gmap strings pretty.
From Stdlib Require Import ZArith Lia Ascii.

Local Open Scope Z_scope.

(** ** Data model (formTypes.ts) *)

Record Validation := mkValidation {
  required : option bool;
  minLength : option Z;
  maxLength : option Z
}.

Record DropdownValidation := mkDropdownValidation {
  dd_required : option bool
}.

Record TextField := mkTextField {
  text_id : string;
  text_label : string;
  text_validation : option Validation
}.

Record DropdownField := mkDropdownField {
  dropdown_id : string;
  dropdown_label : string;
  options : list string;
  dropdown_validation : option DropdownValidation;
  condition : option (gmap string string)
}.

Inductive ColumnType := ColText | ColDropdown.

Global Instance ColumnType_eq_dec : EqDecision ColumnType.
Proof. solve_decision. Defined.

Record TableColumn := mkTableColumn {
  col_id : string;
  col_type : ColumnType;
  col_label : string;
  col_options : option (list string);
  col_validation : option Validation
}.

Inductive TableMode := Static | Dynamic.

Record TableField := mkTableField {
  table_id : string;
  table_label : string;
  columns : list TableColumn;
  mode : TableMode;
  rowLabels : option (list string)
}.

Inductive FormField :=
| Text (f : TextField)
| Dropdown (f : DropdownField)
| Table (f : TableField).

Record FormSchema := mkFormSchema {
  form_id : option string;
  title : string;
  fields : list FormField
}.

(** [field.id] and [field.label], common to the three variants. *)
Definition field_id (f : FormField) : string :=
  match f with
  | Text t => text_id t
  | Dropdown d => dropdown_id d
  | Table t => table_id t
  end.

Definition field_label (f : FormField) : string :=
  match f with
  | Text t => text_label t
  | Dropdown d => dropdown_label d
  | Table t => table_label t
  end.

(** ** Response values *)

Inductive Value :=
| VString (s : string)
| VRows (rows : list (gmap string string)).

(** ** The JavaScript operations the code relies on *)

Module JS.

(** Truthiness of a string: every string but the empty one. *)
Definition truthyString (s : string) : bool := negb (bool_decide (s = "")).

(** Truthiness of an optional string ([undefined] is falsy). *)
Definition truthyCell (c : option string) : bool :=
  match c with
  | Some s => truthyString s
  | None => false
  end.

(** Truthiness of [values[id]]: an array is truthy, also when empty. *)
Definition truthy (v : option Value) : bool :=
  match v with
  | None => false
  | Some (VString s) => truthyString s
  | Some (VRows _) => true
  end.

(** Truthiness of an optional flag such as [validation?.required]. *)
Definition truthyFlag (b : option bool) : bool := default false b.

(** Truthiness of an optional number: [undefined] and [0] are falsy. *)
Definition truthyNumber (n : option Z) : bool :=
  match n with
  | Some k => negb (k =? 0)
  | None => false
  end.

(** [Array.prototype.join]. *)
Fixpoint join (sep : string) (l : list string) : string :=
  match l with
  | [] => ""
  | [s] => s
  | s :: rest => s +:+ sep +:+ join sep rest
  end.

(** The property key a value is converted to in [condition[value]]: a
    string is its own key, an array is joined with commas and each row
    object prints as [[object Object]]. *)
Definition toPropertyKey (v : Value) : string :=
  match v with
  | VString s => s
  | VRows rows => join "," ((λ _, "[object Object]") <$> rows)
  end.

Fixpoint trimStart (s : string) : string :=
  match s with
  | "" => ""
  | String a s' => if Ascii.is_space a then trimStart s' else s
  end.

Definition trim (s : string) : string :=
  String.rev (trimStart (String.rev (trimStart s))).

(** [value?.trim()]: [undefined] on [undefined], the trimmed string on a
    string, and a [TypeError] on an array, which has no [trim] method. *)
Definition optTrim (v : option Value) : option (option string) :=
  match v with
  | None => Some None
  | Some (VString s) => Some (Some (trim s))
  | Some (VRows _) => None
  end.

(** [cell?.trim()] on a table cell, which is a string or [undefined]. *)
Definition optTrimCell (c : option string) : option string := trim <$> c.

(** [value?.length]. *)
Definition optLength (v : option Value) : option Z :=
  match v with
  | None => None
  | Some (VString s) => Some (Z.of_nat (String.length s))
  | Some (VRows rows) => Some (Z.of_nat (length rows))
  end.

Definition optLengthCell (c : option string) : option Z :=
  (λ s, Z.of_nat (String.length s)) <$> c.

(** [a < b] and [a > b] where [a] may be [undefined]: a comparison with
    [undefined] is false. *)
Definition lt (a : option Z) (b : Z) : bool :=
  match a with Some x => x <? b | None => false end.

Definition gt (a : option Z) (b : Z) : bool :=
  match a with Some x => x >? b | None => false end.

(** [options.includes(value)]: an array value is never an element of a
    list of strings. *)
Definition includes (opts : list string) (v : Value) : bool :=
  match v with
  | VString s => bool_decide (s ∈ opts)
  | VRows _ => false
  end.

(** [arr.findIndex(p)], [-1] when no element satisfies [p]. *)
Fixpoint findIndexFrom {A} (p : A → bool) (i : Z) (l : list A) : Z :=
  match l with
  | [] => -1
  | x :: rest => if p x then i else findIndexFrom p (i + 1) rest
  end.

Definition findIndex {A} (p : A → bool) (l : list A) : Z :=
  findIndexFrom p 0 l.

End JS.

(** ** VisibilityResolver: [getVisibleFieldIds] *)

(** [field.type === "dropdown" && field.condition]: the condition map of a
    dropdown that defines one (an empty object is truthy). *)
Definition conditionOf (f : FormField) : option (gmap string string) :=
  match f with
  | Dropdown d => condition d
  | _ => None
  end.

(** The truthy values of one condition map. *)
Definition conditionTargets (c : gmap string string) : gset string :=
  filter (λ id, JS.truthyString id = true) (map_img c).

(** First loop: every truthy target of every dropdown's condition map. *)
Fixpoint possibleJumpTargets (fs : list FormField) : gset string :=
  match fs with
  | [] => ∅
  | f :: rest =>
      match conditionOf f with
      | Some c => conditionTargets c
      | None => ∅
      end ∪ possibleJumpTargets rest
  end.

(** The target selected in a condition map by the current value:
    [values[field.id]] must be truthy and [condition[values[field.id]]] too. *)
Definition selectedTarget (c : gmap string string) (v : option Value) : option string :=
  match v with
  | Some x =>
      if JS.truthy v then
        match c !! JS.toPropertyKey x with
        | Some t => if JS.truthyString t then Some t else None
        | None => None
        end
      else None
  | None => None
  end.

(** Second loop: index of the first dropdown with a condition and the jump
    target selected there; the loop breaks at that dropdown. The index is
    [-1] when there is none. *)
Fixpoint findJumpDropdown (i : Z) (fs : list FormField) (values : gmap string Value)
  : Z * option string :=
  match fs with
  | [] => (-1, None)
  | f :: rest =>
      match conditionOf f with
      | Some c => (i, selectedTarget c (values !! field_id f))
      | None => findJumpDropdown (i + 1) rest values
      end
  end.

(** [jumpTargetId ? fields.findIndex(f => f.id === jumpTargetId) + 1
                  : jumpDropdownIdx + 1]. *)
Definition afterIdx (fs : list FormField) (jumpDropdownIdx : Z)
    (jumpTargetId : option string) : Z :=
  match jumpTargetId with
  | Some t => JS.findIndex (λ f, bool_decide (field_id f = t)) fs + 1
  | None => jumpDropdownIdx + 1
  end.

(** The test of the last loop:
    [!possibleJumpTargets.has(id) || id === jumpTargetId]. *)
Definition shownAfter (targets : gset string) (jumpTargetId : option string)
    (f : FormField) : Prop :=
  field_id f ∉ targets ∨ Some (field_id f) = jumpTargetId.

Global Instance shownAfter_dec targets jumpTargetId f :
  Decision (shownAfter targets jumpTargetId f).
Proof. unfold shownAfter. apply _. Defined.

(** [fields[jumpDropdownIdx]] is always defined when the index is not [-1]
    (lemma [getVisibleFieldIds_branch] below), so the branch for an index
    out of range is never taken. *)
Definition getVisibleFieldIds (fs : list FormField) (values : gmap string Value)
  : list string :=
  let targets := possibleJumpTargets fs in
  let '(jumpDropdownIdx, jumpTargetId) := findJumpDropdown 0 fs values in
  if negb (jumpDropdownIdx =? -1) then
    match fs !! Z.to_nat jumpDropdownIdx with
    | Some f => [field_id f]
    | None => []
    end
    ++ match jumpTargetId with Some t => [t] | None => [] end
    ++ (field_id <$>
          filter (shownAfter targets jumpTargetId)
            (drop (Z.to_nat (afterIdx fs jumpDropdownIdx jumpTargetId)) fs))
  else field_id <$> fs.

(** ** ResponseValidator, client side: [validateFormResponse] *)

(** [if (c) errors.push(msg)]. *)
Definition pushIf (c : bool) (msg : string) : list string :=
  if c then [msg] else [].

Module Client.

(** Preprocessing loop: the jump target selected at the first dropdown
    with a condition. *)
Fixpoint jumpTarget (fs : list FormField) (values : gmap string Value)
  : option string :=
  match fs with
  | [] => None
  | f :: rest =>
      match conditionOf f with
      | Some c => selectedTarget c (values !! field_id f)
      | None => jumpTarget rest values
      end
  end.

(** [jumpTargetId && field.id !== jumpTargetId
     && visibleIdsSet.has(jumpTargetId)]. *)
Definition suppressRequired (jumpTargetId : option string)
    (visibleIdsSet : gset string) (id : string) : bool :=
  match jumpTargetId with
  | Some t => negb (bool_decide (id = t)) && bool_decide (t ∈ visibleIdsSet)
  | None => false
  end.

(** [let required = validation?.required; if (...) required = false]. *)
Definition effectiveRequired (jumpTargetId : option string)
    (visibleIdsSet : gset string) (id : string) (req : option bool) : bool :=
  if suppressRequired jumpTargetId visibleIdsSet id then false
  else JS.truthyFlag req.

Definition textErrors (t : TextField) (req : bool) (value : option Value)
  : option (list string) :=
  let label := text_label t in
  e1 ← (if req then
          trimmed ← JS.optTrim value;
          Some (pushIf (negb (JS.truthyCell trimmed)) (label +:+ " is required."))
        else Some []);
  let e2 :=
    match text_validation t ≫= minLength with
    | Some n =>
        pushIf (JS.truthyNumber (Some n) && JS.lt (JS.optLength value) n)
          (label +:+ " must be at least " +:+ pretty n +:+ " characters.")
    | None => []
    end in
  let e3 :=
    match text_validation t ≫= maxLength with
    | Some n =>
        pushIf (JS.truthyNumber (Some n) && JS.gt (JS.optLength value) n)
          (label +:+ " must be at most " +:+ pretty n +:+ " characters.")
    | None => []
    end in
  Some (e1 ++ e2 ++ e3).

Definition dropdownErrors (d : DropdownField) (req : bool) (value : option Value)
  : list string :=
  let label := dropdown_label d in
  pushIf (req && negb (JS.truthy value)) (label +:+ " is required.")
  ++ match value with
     | Some x =>
         pushIf (JS.truthy value && negb (JS.includes (options d) x))
           (label +:+ " value is not valid.")
     | None => []
     end.

(** The prefix shared by the messages of one cell:
    [`${col.label} in ${field.label} row ${rowIdx + 1}`]. *)
Definition cellPrefix (t : TableField) (rowIdx : nat) (col : TableColumn) : string :=
  col_label col +:+ " in " +:+ table_label t +:+ " row " +:+ pretty (rowIdx + 1)%nat.

Definition cellErrors (t : TableField) (colRequired : bool) (rowIdx : nat)
    (row : gmap string string) (col : TableColumn) : list string :=
  let cell := row !! col_id col in
  let isText := bool_decide (col_type col = ColText) in
  let isDropdown := bool_decide (col_type col = ColDropdown) in
  let pre := cellPrefix t rowIdx col in
  pushIf (isText && colRequired && negb (JS.truthyCell (JS.optTrimCell cell)))
    (pre +:+ " is required.")
  ++ match col_validation col ≫= minLength with
     | Some n =>
         pushIf (isText && JS.truthyNumber (Some n) && JS.lt (JS.optLengthCell cell) n)
           (pre +:+ " must be at least " +:+ pretty n +:+ " characters.")
     | None => []
     end
  ++ match col_validation col ≫= maxLength with
     | Some n =>
         pushIf (isText && JS.truthyNumber (Some n) && JS.gt (JS.optLengthCell cell) n)
           (pre +:+ " must be at most " +:+ pretty n +:+ " characters.")
     | None => []
     end
  ++ pushIf (isDropdown && colRequired && negb (JS.truthyCell cell))
       (pre +:+ " is required.")
  ++ match cell, col_options col with
     | Some s, Some opts =>
         pushIf (JS.truthyString s && negb (bool_decide (s ∈ opts)))
           (pre +:+ " value is not valid.")
     | _, _ => []
     end.

(** [value.forEach((row, rowIdx) => field.columns.forEach(col => ...))]. *)
Definition tableErrors (jumpTargetId : option string) (visibleIdsSet : gset string)
    (t : TableField) (rows : list (gmap string string)) : list string :=
  concat (imap (λ rowIdx row,
    concat ((λ col,
      cellErrors t
        (effectiveRequired jumpTargetId visibleIdsSet (table_id t)
           (col_validation col ≫= required))
        rowIdx row col) <$> columns t)) rows).

(** The body of [form.fields.forEach]: the messages pushed for one field,
    or [None] when it throws. *)
Definition fieldErrors (jumpTargetId : option string) (visibleIdsSet : gset string)
    (values : gmap string Value) (f : FormField) : option (list string) :=
  if bool_decide (field_id f ∈ visibleIdsSet) then
    let value := values !! field_id f in
    match f with
    | Text t =>
        textErrors t
          (effectiveRequired jumpTargetId visibleIdsSet (text_id t)
             (text_validation t ≫= required))
          value
    | Dropdown d =>
        Some (dropdownErrors d
                (effectiveRequired jumpTargetId visibleIdsSet (dropdown_id d)
                   (dropdown_validation d ≫= dd_required))
                value)
    | Table t =>
        match value with
        | Some (VRows rows) => Some (tableErrors jumpTargetId visibleIdsSet t rows)
        | _ => Some []
        end
    end
  else Some [].

Definition validateFields (jumpTargetId : option string) (visibleIdsSet : gset string)
    (values : gmap string Value) (fs : list FormField) : option (list string) :=
  pushed ← mapM (fieldErrors jumpTargetId visibleIdsSet values) fs;
  Some (concat pushed).

Definition validateFormResponse (values : gmap string Value) (form : FormSchema)
    (visibleFieldIds : list string) : option (list string) :=
  let visibleIdsSet : gset string := list_to_set visibleFieldIds in
  let jumpTargetId := jumpTarget (fields form) values in
  validateFields jumpTargetId visibleIdsSet values (fields form).

End Client.

(** ** Server side: [validateResponse] *)

Module Server.

Definition textErrors (t : TextField) (value : option Value) : option (list string) :=
  let label := text_label t in
  e1 ← (if JS.truthyFlag (text_validation t ≫= required) then
          trimmed ← JS.optTrim value;
          Some (pushIf (negb (JS.truthyCell trimmed)) (label +:+ " is required."))
        else Some []);
  let e2 :=
    match text_validation t ≫= minLength with
    | Some n =>
        pushIf (JS.truthyNumber (Some n) && JS.lt (JS.optLength value) n)
          (label +:+ " must be at least " +:+ pretty n +:+ " characters.")
    | None => []
    end in
  let e3 :=
    match text_validation t ≫= maxLength with
    | Some n =>
        pushIf (JS.truthyNumber (Some n) && JS.gt (JS.optLength value) n)
          (label +:+ " must be at most " +:+ pretty n +:+ " characters.")
    | None => []
    end in
  Some (e1 ++ e2 ++ e3).

Definition dropdownErrors (d : DropdownField) (value : option Value) : list string :=
  let label := dropdown_label d in
  pushIf (JS.truthyFlag (dropdown_validation d ≫= dd_required) && negb (JS.truthy value))
    (label +:+ " is required.")
  ++ match value with
     | Some x =>
         pushIf (JS.truthy value && negb (JS.includes (options d) x))
           (label +:+ " value is not valid.")
     | None => []
     end.

Definition cellErrors (t : TableField) (row : gmap string string)
    (col : TableColumn) : list string :=
  let cell := row !! col_id col in
  let colRequired := JS.truthyFlag (col_validation col ≫= required) in
  let pre := col_label col +:+ " in " +:+ table_label t in
  pushIf (bool_decide (col_type col = ColText) && colRequired
          && negb (JS.truthyCell (JS.optTrimCell cell)))
    (pre +:+ " is required.")
  ++ pushIf (bool_decide (col_type col = ColDropdown) && colRequired
             && negb (JS.truthyCell cell))
       (pre +:+ " is required.")
  ++ match cell, col_options col with
     | Some s, Some opts =>
         pushIf (JS.truthyString s && negb (bool_decide (s ∈ opts)))
           (pre +:+ " value is not valid.")
     | _, _ => []
     end.

Definition tableErrors (t : TableField) (rows : list (gmap string string))
  : list string :=
  concat ((λ row, concat (cellErrors t row <$> columns t)) <$> rows).

(** [if (!field.label?.trim()) errors.push(...)]. *)
Definition labelErrors (f : FormField) : list string :=
  pushIf (negb (JS.truthyString (JS.trim (field_label f))))
    ("Field label missing for " +:+ field_id f).

Definition fieldErrors (data : gmap string Value) (f : FormField)
  : option (list string) :=
  let value := data !! field_id f in
  rest ← match f with
         | Text t => textErrors t value
         | Dropdown d => Some (dropdownErrors d value)
         | Table t =>
             match value with
             | Some (VRows rows) => Some (tableErrors t rows)
             | _ => Some []
             end
         end;
  Some (labelErrors f ++ rest).

Definition validateResponse (form : FormSchema) (data : gmap string Value)
  : option (list string) :=
  pushed ← mapM (fieldErrors data) (fields form);
  Some (concat pushed).

End Server.

(** ** Form editor: [validateForm], [updateFieldList] and the field editors *)

Module Editor.

(** [!s || !s.trim()]. *)
Definition blank (s : string) : bool :=
  negb (JS.truthyString s) || negb (JS.truthyString (JS.trim s)).

(** [opts.forEach((opt, i) => { if (!opt || !opt.trim()) errors.push(...) })],
    the message being [`${pre} option ${i + 1} cannot be empty.`]. *)
Definition optionErrors (pre : string) (opts : list string) : list string :=
  concat (imap (λ i opt,
    pushIf (blank opt)
      (pre +:+ " option " +:+ pretty (i + 1)%nat +:+ " cannot be empty.")) opts).

Definition dropdownErrors (d : DropdownField) : list string :=
  let pre := "Dropdown '" +:+ dropdown_label d +:+ "'" in
  match options d with
  | [] => [pre +:+ " must have at least one option."]
  | opts => optionErrors pre opts
  end.

Definition columnErrors (t : TableField) (i : nat) (col : TableColumn) : list string :=
  let tpre := "Table '" +:+ table_label t +:+ "'" in
  pushIf (blank (col_label col))
    (tpre +:+ " column " +:+ pretty (i + 1)%nat +:+ " label cannot be empty.")
  ++ match col_type col with
     | ColDropdown =>
         let cpre := tpre +:+ " column '" +:+ col_label col +:+ "'" in
         match col_options col with
         | None | Some [] => [cpre +:+ " must have at least one option."]
         | Some opts => optionErrors cpre opts
         end
     | ColText => []
     end.

Definition tableErrors (t : TableField) : list string :=
  let tpre := "Table '" +:+ table_label t +:+ "'" in
  match columns t with
  | [] => [tpre +:+ " must have at least one column."]
  | cols => concat (imap (columnErrors t) cols)
  end
  ++ match mode t, rowLabels t with
     | Static, Some labels =>
         concat (imap (λ i rl,
           pushIf (blank rl)
             (tpre +:+ " row " +:+ pretty (i + 1)%nat +:+ " label cannot be empty."))
           labels)
     | _, _ => []
     end.

(** The body of [fields.forEach((field, idx) => ...)]. *)
Definition fieldErrors (idx : nat) (f : FormField) : list string :=
  pushIf (blank (field_label f))
    ("Field " +:+ pretty (idx + 1)%nat +:+ " label cannot be empty.")
  ++ match f with
     | Text _ => []
     | Dropdown d => dropdownErrors d
     | Table t => tableErrors t
     end.

Definition validateForm (title : string) (fs : list FormField) : list string :=
  pushIf (blank title) "Form title cannot be empty."
  ++ concat (imap fieldErrors fs).

(** [fields.length > 0 && fields.every(f => f.type !== "table" ||
    (f.type === "table" && f.columns.length > 0))]. *)
Definition isFormValid (fs : list FormField) : bool :=
  bool_decide (fs ≠ [])
  && forallb (λ f, match f with
                   | Table t => bool_decide (columns t ≠ [])
                   | _ => true
                   end) fs.

(** The Save button is enabled: [!(!isFormValid || errors.length > 0)]. *)
Definition saveEnabled (title : string) (fs : list FormField) : bool :=
  isFormValid fs && bool_decide (validateForm title fs = []).

(** [handleSave]: the form handed to [onSave], or nothing when there are
    errors. *)
Definition handleSave (title : string) (fs : list FormField) : option FormSchema :=
  match validateForm title fs with
  | [] => Some (mkFormSchema None title fs)
  | _ => None
  end.

(** The objects the field editors pass as [changes]. *)
Inductive Changes :=
| ChLabel (label : string)
| ChOptions (opts : list string)
| ChCondition (c : option (gmap string string)).

(** [{ ...f, ...changes }]. A key that the field's type does not have
    ([options] or [condition] on a text or table field) is added to the
    object but read by no code, so the field is unchanged. *)
Definition applyChanges (f : FormField) (ch : Changes) : FormField :=
  match ch, f with
  | ChLabel l, Text t => Text (mkTextField (text_id t) l (text_validation t))
  | ChLabel l, Dropdown d =>
      Dropdown (mkDropdownField (dropdown_id d) l (options d)
                  (dropdown_validation d) (condition d))
  | ChLabel l, Table t =>
      Table (mkTableField (table_id t) l (columns t) (mode t) (rowLabels t))
  | ChOptions o, Dropdown d =>
      Dropdown (mkDropdownField (dropdown_id d) (dropdown_label d) o
                  (dropdown_validation d) (condition d))
  | ChCondition c, Dropdown d =>
      Dropdown (mkDropdownField (dropdown_id d) (dropdown_label d) (options d)
                  (dropdown_validation d) c)
  | _, _ => f
  end.

(** [fields.map(f => f.id === id ? { ...f, ...changes } : f)]. *)
Definition updateFieldList (fs : list FormField) (id : string) (ch : Changes)
  : list FormField :=
  (λ f, if decide (field_id f = id) then applyChanges f ch else f) <$> fs.

(** [prev.filter(f => f.id !== id)]. *)
Definition removeField (fs : list FormField) (id : string) : list FormField :=
  filter (λ f, field_id f ≠ id) fs.

(** The handlers of [DropdownFieldEditor], each the [changes] it passes to
    [updateField(field.id, changes)]. *)
Definition setConditionEnabled (enabled : bool) : Changes :=
  ChCondition (if enabled then Some ∅ else None).

Definition setCondition (d : DropdownField) (opt targetId : string) : Changes :=
  ChCondition (Some (<[opt := targetId]> (default ∅ (condition d)))).

Definition addOption (d : DropdownField) : Changes :=
  ChOptions (options d ++ ["Option " +:+ pretty (length (options d) + 1)%nat]).

Definition removeOption (d : DropdownField) (index : nat) : Changes :=
  ChOptions (delete index (options d)).

(** [FormField["type"]], the argument of [createField]. *)
Inductive FieldType := TypeText | TypeDropdown | TypeTable.

(** [createField(type)], [id] being the string built from [Date.now()] and
    [Math.random()]. *)
Definition createField (id : string) (type : FieldType) : FormField :=
  match type with
  | TypeText =>
      Text (mkTextField id "Untitled" (Some (mkValidation None None None)))
  | TypeDropdown =>
      Dropdown (mkDropdownField id "Untitled" ["Option 1"]
                  (Some (mkDropdownValidation None)) None)
  | TypeTable => Table (mkTableField id "Untitled Table" [] Dynamic None)
  end.

(** [setFields(prev => [...prev, createField(type)])]. *)
Definition addField (fs : list FormField) (id : string) (type : FieldType)
  : list FormField :=
  fs ++ [createField id type].

End Editor.

(** ** Preview: the handlers of [FormPreview] and [TableFieldRenderer] *)

Module Preview.

(** [setValues({ ...values, [id]: value })]. *)
Definition handleChange (values : gmap string Value) (id : string) (value : Value)
  : gmap string Value :=
  <[id := value]> values.

(** [handleAddRow]: the value passed to [onChange], that is
    [[...(Array.isArray(value) ? value : []), {}]]. *)
Definition handleAddRow (value : option Value) : Value :=
  VRows (match value with
         | Some (VRows rows) => rows
         | _ => []
         end ++ [∅]).

(** The client-side gate of [handleSubmit]: the values are posted to the
    server exactly when [validate] returns no error; [None] when it
    throws. *)
Definition passesClient (form : FormSchema) (values : gmap string Value)
  : option bool :=
  errs ← Client.validateFormResponse values form
            (getVisibleFieldIds (fields form) values);
  Some (bool_decide (errs = [])).

End Preview.

(** ** Server: the endpoints over the two tables *)

Module Api.

(** The tables [forms] (primary key [id]) and [responses] (rows in the
    order of their auto-increment key). The database is assumed reachable:
    a query fails only on a duplicate primary key. *)
Record Database := mkDatabase {
  forms : gmap string FormSchema;
  responses : list (string * gmap string Value)
}.

Inductive Body :=
| BForm (form : FormSchema)
| BForms (l : list FormSchema)
| BResponses (l : list (gmap string Value))
| BErrors (errs : list string)
| BError (msg : string)
| BSuccess
| BEmpty.

Record Response := mkResponse { status : Z; body : Body }.

(** [{ ...req.body, id }]. *)
Definition withId (form : FormSchema) (id : string) : FormSchema :=
  mkFormSchema (Some id) (title form) (fields form).

(** [GET /api/forms]. *)
Definition getForms (db : Database) : Response :=
  mkResponse 200 (BForms ((map_to_list (forms db)).*2)).

(** [POST /api/forms], [id] being the result of [uuidv4()]. *)
Definition postForm (db : Database) (id : string) (reqBody : FormSchema)
  : Response * Database :=
  match forms db !! id with
  | Some _ => (mkResponse 500 (BError "Database error"), db)
  | None =>
      (mkResponse 201 (BForm (withId reqBody id)),
       mkDatabase (<[id := withId reqBody id]> (forms db)) (responses db))
  end.

(** [GET /api/forms/:id]. *)
Definition getForm (db : Database) (id : string) : Response :=
  match forms db !! id with
  | None => mkResponse 404 (BError "Form not found")
  | Some form => mkResponse 200 (BForm form)
  end.

(** [PUT /api/forms/:id]: the [UPDATE] touches the row with this id, if
    any, and the answer is 200 either way. *)
Definition putForm (db : Database) (id : string) (reqBody : FormSchema)
  : Response * Database :=
  (mkResponse 200 (BForm (withId reqBody id)),
   mkDatabase
     (match forms db !! id with
      | Some _ => <[id := withId reqBody id]> (forms db)
      | None => forms db
      end)
     (responses db)).

(** [DELETE /api/forms/:id]. *)
Definition deleteForm (db : Database) (id : string) : Response * Database :=
  (mkResponse 204 BEmpty, mkDatabase (delete id (forms db)) (responses db)).

(** [POST /api/forms/:id/responses]. An exception of [validateResponse] is
    caught by the handler and answered like a database error. *)
Definition postResponse (db : Database) (id : string) (reqBody : gmap string Value)
  : Response * Database :=
  match forms db !! id with
  | None => (mkResponse 404 (BError "Form not found"), db)
  | Some form =>
      match Server.validateResponse form reqBody with
      | None => (mkResponse 500 (BError "Database error"), db)
      | Some [] =>
          (mkResponse 201 BSuccess,
           mkDatabase (forms db) (responses db ++ [(id, reqBody)]))
      | Some errs => (mkResponse 400 (BErrors errs), db)
      end
  end.

(** [GET /api/forms/:id/responses]. *)
Definition getResponses (db : Database) (id : string) : Response :=
  mkResponse 200
    (BResponses ((filter (λ r, r.1 = id) (responses db)).*2)).

(** [DELETE /api/forms/:id/responses]. *)
Definition deleteResponses (db : Database) (id : string) : Response * Database :=
  (mkResponse 204 BEmpty,
   mkDatabase (forms db) (filter (λ r, r.1 ≠ id) (responses db))).

End Api.

(** The id of the first dropdown that carries a condition,
    [fields[jumpDropdownIdx].id]. *)
Fixpoint jumpDropdownId (fs : list FormField) : option string :=
  match fs with
  | [] => None
  | f :: rest =>
      match conditionOf f with
      | Some _ => Some (field_id f)
      | None => jumpDropdownId rest
      end
  end.

(** ** The table branch on values outside the data model *)

(** Both validators take [values: any]. The server receives whatever JSON
    the request carries; on the client,
    [TableFieldRenderer.handleCellChange] assigns [table[rowIdx]] on a copy
    of the array, which leaves a hole at every row not edited so far, and
    the copy [[...value]] of the next edit turns each hole into
    [undefined]; [JSON.stringify] sends both as [null]. A row is a row
    object, [undefined] or [null], or a hole; rows that are other
    primitives are not modelled. *)
Module Wide.

Inductive Row :=
| RowObject (cells : gmap string string)
| RowNullish
| RowHole.

Global Instance Row_eq_dec : EqDecision Row.
Proof. solve_decision. Defined.







End Wide.

(** ** The resolver on keys inherited from [Object.prototype] *)

(** [field.condition[values[field.id]]] reads an own property of the
    condition object or, when there is none of that name, a member the
    object inherits from [Object.prototype]: a function (or, for
    [__proto__], the prototype itself), which is truthy, is no string and
    is the id of no field. *)
Module Proto.

Definition members : list string :=
  ["constructor"; "hasOwnProperty"; "isPrototypeOf"; "propertyIsEnumerable";
   "toLocaleString"; "toString"; "valueOf"; "__proto__";
   "__defineGetter__"; "__defineSetter__"; "__lookupGetter__"; "__lookupSetter__"].

(** What the resolver pushes on [visibleIds]: a field id or the selected
    target, or the inherited member read under [key]. *)
Inductive Pushed :=
| PushedId (id : string)
| PushedMember (key : string).

Global Instance Pushed_eq_dec : EqDecision Pushed.
Proof. solve_decision. Defined.

Definition selectedTarget (c : gmap string string) (v : option Value)
  : option Pushed :=
  match v with
  | Some x =>
      if JS.truthy v then
        match c !! JS.toPropertyKey x with
        | Some t => if JS.truthyString t then Some (PushedId t) else None
        | None =>
            if bool_decide (JS.toPropertyKey x ∈ members)
            then Some (PushedMember (JS.toPropertyKey x))
            else None
        end
      else None
  | None => None
  end.

Fixpoint findJumpDropdown (i : Z) (fs : list FormField) (values : gmap string Value)
  : Z * option Pushed :=
  match fs with
  | [] => (-1, None)
  | f :: rest =>
      match conditionOf f with
      | Some c => (i, selectedTarget c (values !! field_id f))
      | None => findJumpDropdown (i + 1) rest values
      end
  end.

(** [f.id === jumpTargetId]: no id is equal to an inherited member. *)
Definition isTarget (jumpTargetId : Pushed) (f : FormField) : bool :=
  match jumpTargetId with
  | PushedId t => bool_decide (field_id f = t)
  | PushedMember _ => false
  end.

Definition afterIdx (fs : list FormField) (jumpDropdownIdx : Z)
    (jumpTargetId : option Pushed) : Z :=
  match jumpTargetId with
  | Some t => JS.findIndex (isTarget t) fs + 1
  | None => jumpDropdownIdx + 1
  end.

Definition shownAfter (targets : gset string) (jumpTargetId : option Pushed)
    (f : FormField) : Prop :=
  field_id f ∉ targets ∨ Some (PushedId (field_id f)) = jumpTargetId.

Global Instance shownAfter_dec targets jumpTargetId f :
  Decision (shownAfter targets jumpTargetId f).
Proof. unfold shownAfter. apply _. Defined.

Definition getVisibleFieldIds (fs : list FormField) (values : gmap string Value)
  : list Pushed :=
  let targets := possibleJumpTargets fs in
  let '(jumpDropdownIdx, jumpTargetId) := findJumpDropdown 0 fs values in
  if negb (jumpDropdownIdx =? -1) then
    match fs !! Z.to_nat jumpDropdownIdx with
    | Some f => [PushedId (field_id f)]
    | None => []
    end
    ++ match jumpTargetId with Some t => [t] | None => [] end
    ++ ((λ f, PushedId (field_id f)) <$>
          filter (shownAfter targets jumpTargetId)
            (drop (Z.to_nat (afterIdx fs jumpDropdownIdx jumpTargetId)) fs))
  else (λ f, PushedId (field_id f)) <$> fs.

End Proto.

(** ** Notions used to state the properties *)

(** [s.endsWith(suffix)]. *)
Fixpoint endsWith (suffix s : string) : bool :=
  bool_decide (s = suffix)
  || match s with
     | "" => false
     | String _ s' => endsWith suffix s'
     end.

(** A message of the required rule, of a field or of a table cell. *)
Definition isRequiredError (e : string) : bool := endsWith " is required." e.

(** A validation record whose [required] flag is off. *)
Definition dropRequired (v : option Validation) : option Validation :=
  (λ x, mkValidation (Some false) (minLength x) (maxLength x)) <$> v.

(** A field whose required rule is switched off, for the field itself and
    for every column of a table; everything else is unchanged. *)
Definition withoutRequired (f : FormField) : FormField :=
  match f with
  | Text t =>
      Text (mkTextField (text_id t) (text_label t) (dropRequired (text_validation t)))
  | Dropdown d =>
      Dropdown (mkDropdownField (dropdown_id d) (dropdown_label d) (options d)
                  (Some (mkDropdownValidation (Some false))) (condition d))
  | Table t =>
      Table (mkTableField (table_id t) (table_label t)
               ((λ col, mkTableColumn (col_id col) (col_type col) (col_label col)
                          (col_options col) (dropRequired (col_validation col)))
                <$> columns t)
               (mode t) (rowLabels t))
  end.

(** The form in which only the field with id [t] keeps its required rule. *)
Definition requiredOnlyFor (t : string) (f : FormField) : FormField :=
  if decide (field_id f = t) then f else withoutRequired f.

(** The table field [f] holds an array of rows in [values]. *)
Definition holdsRows (values : gmap string Value) (f : FormField) : Prop :=
  ∃ t rows, f = Table t ∧ values !! table_id t = Some (VRows rows).

(** The rules a table cell can violate, in the words of the validators'
    messages. A cell is blank when it is absent or white space only, empty
    when it is absent or the empty string. *)
Definition blankCell (cell : option string) : Prop :=
  match cell with
  | Some s => JS.trim s = ""
  | None => True
  end.

Definition emptyCell (cell : option string) : Prop :=
  cell = None ∨ cell = Some "".

Definition notAnOption (col : TableColumn) (cell : option string) : Prop :=
  ∃ s opts, cell = Some s ∧ s ≠ "" ∧ col_options col = Some opts ∧ s ∉ opts.

Definition tooShort (col : TableColumn) (cell : option string) : Prop :=
  ∃ n s, col_validation col ≫= minLength = Some n ∧ n ≠ 0
         ∧ cell = Some s ∧ Z.of_nat (String.length s) < n.

Definition tooLong (col : TableColumn) (cell : option string) : Prop :=
  ∃ n s, col_validation col ≫= maxLength = Some n ∧ n ≠ 0
         ∧ cell = Some s ∧ n < Z.of_nat (String.length s).

(** A cell that violates a rule of the client-side validator, [colRequired]
    being the required flag in force for the column. *)
Definition clientCellViolation (colRequired : bool) (col : TableColumn)
    (cell : option string) : Prop :=
  (col_type col = ColText ∧ colRequired = true ∧ blankCell cell)
  ∨ (col_type col = ColText ∧ tooShort col cell)
  ∨ (col_type col = ColText ∧ tooLong col cell)
  ∨ (col_type col = ColDropdown ∧ colRequired = true ∧ emptyCell cell)
  ∨ notAnOption col cell.

(** A cell that violates a rule of the server-side validator. *)
Definition serverCellViolation (col : TableColumn) (cell : option string) : Prop :=
  (col_type col = ColText ∧ col_validation col ≫= required = Some true
   ∧ blankCell cell)
  ∨ (col_type col = ColDropdown ∧ col_validation col ≫= required = Some true
     ∧ emptyCell cell)
  ∨ notAnOption col cell.

(** What the editor's [validateForm] asks of a form, in the words of its
    messages. *)
Definition nonBlank (s : string) : Prop := JS.trim s ≠ "".

Definition columnWellFormed (col : TableColumn) : Prop :=
  nonBlank (col_label col)
  ∧ (col_type col = ColDropdown →
     ∃ opts, col_options col = Some opts ∧ opts ≠ [] ∧ Forall nonBlank opts).

Definition fieldWellFormed (f : FormField) : Prop :=
  nonBlank (field_label f)
  ∧ match f with
    | Text _ => True
    | Dropdown d => options d ≠ [] ∧ Forall nonBlank (options d)
    | Table t =>
        columns t ≠ []
        ∧ Forall columnWellFormed (columns t)
        ∧ match mode t, rowLabels t with
          | Static, Some labels => Forall nonBlank labels
          | _, _ => True
          end
    end.

(** An id that some dropdown of the list names as a target: some option
    of the dropdown's condition map is mapped to the id, which is not the
    empty string. *)
Definition isConditionTarget (fs : list FormField) (id : string) : Prop :=
  ∃ d c opt,
    Dropdown d ∈ fs ∧ condition d = Some c ∧ c !! opt = Some id ∧ id ≠ "".

(** [server] is the message [client] of a cell of table [t] without its
    row number. *)
Definition withoutRowNumber (t : TableField) (client server : string) : Prop :=
  ∃ (col : TableColumn) (rowIdx : nat) (rule : string),
    col ∈ columns t
    ∧ client = col_label col +:+ " in " +:+ table_label t +:+ " row "
               +:+ pretty (rowIdx + 1)%nat +:+ rule
    ∧ server = col_label col +:+ " in " +:+ table_label t +:+ rule.

(** A message of the client-side validator and one of the server-side
    validator correspond: they are equal or, for a cell of a table of the
    form, differ by the row number only. *)
Definition sameButRowNumber (fs : list FormField) (client server : string) : Prop :=
  client = server ∨ ∃ t, Table t ∈ fs ∧ withoutRowNumber t client server.

(** No cell that field [f] holds in a text column is shorter than the
    column's [minLength] or longer than its [maxLength]. *)
Definition cellLengthsRespected (values : gmap string Value) (f : FormField) : Prop :=
  ∀ t rows row col,
    f = Table t → values !! table_id t = Some (VRows rows) →
    row ∈ rows → col ∈ columns t → col_type col = ColText →
    ¬ tooShort col (row !! col_id col) ∧ ¬ tooLong col (row !! col_id col).

(** A field whose table columns have lost their [minLength] and
    [maxLength]; everything else is unchanged. *)
Definition withoutCellBounds (f : FormField) : FormField :=
  match f with
  | Table t =>
      Table (mkTableField (table_id t) (table_label t)
               ((λ col, mkTableColumn (col_id col) (col_type col) (col_label col)
                          (col_options col)
                          ((λ v, mkValidation (required v) None None)
                             <$> col_validation col))
                <$> columns t)
               (mode t) (rowLabels t))
  | _ => f
  end.

(** ** Concrete forms used as examples *)

Module Scenario.

Definition requiredOnly : option Validation :=
  Some (mkValidation (Some true) None None).

(** Scenario A/B of the specification: a dropdown [D] whose option [Yes]
    jumps to [Q2], followed by the required text fields [Q1] and [Q2]. *)
Definition D : DropdownField :=
  mkDropdownField "D" "D" ["Yes"; "No"] None (Some {["Yes" := "Q2"]}).
Definition Q1 : FormField := Text (mkTextField "Q1" "Q1" requiredOnly).
Definition Q2 : FormField := Text (mkTextField "Q2" "Q2" requiredOnly).
Definition branching : list FormField := [Dropdown D; Q1; Q2].

(** A dropdown whose conditional logic is switched on in the editor but
    has no target yet ([condition: {}]), between two text fields. *)
Definition E : DropdownField :=
  mkDropdownField "E" "E" ["Yes"; "No"] None (Some ∅).
Definition Q0 : FormField := Text (mkTextField "Q0" "Q0" None).
Definition emptyCondition : list FormField := [Q0; Dropdown E; Q1].

(** A dropdown placed last whose option [Yes] jumps back to the first
    field. *)
Definition B : DropdownField :=
  mkDropdownField "B" "B" ["Yes"; "No"] None (Some {["Yes" := "Q1"]}).
Definition backward : list FormField := [Q1; Q2; Dropdown B].

(** Tables with one required column. [items] has a dropdown column,
    [notes] a text column that nevertheless carries options, [unlabelled]
    an empty label. *)
Definition kind : TableColumn :=
  mkTableColumn "c" ColDropdown "Kind" (Some ["A"; "B"]) requiredOnly.
Definition note : TableColumn :=
  mkTableColumn "n" ColText "Note" (Some ["A"; "B"]) requiredOnly.
Definition items : TableField := mkTableField "T" "Items" [kind] Dynamic None.
Definition notes : TableField := mkTableField "N" "Notes" [note] Dynamic None.

(** A dropdown [F] whose options lead to [Q2] and [Q3], and a later
    dropdown [G] whose option leads to [Q4]. *)
Definition F : DropdownField :=
  mkDropdownField "F" "F" ["Yes"; "No"] None
    (Some {["Yes" := "Q2"; "No" := "Q3"]}).
Definition G : DropdownField :=
  mkDropdownField "G" "G" ["A"] None (Some {["A" := "Q4"]}).
Definition Q3 : FormField := Text (mkTextField "Q3" "Q3" None).
Definition Q4 : FormField := Text (mkTextField "Q4" "Q4" None).

(** A table with a text column of at least three characters. *)
Definition code : TableColumn :=
  mkTableColumn "k" ColText "Code" None
    (Some (mkValidation None (Some 3) None)).
Definition codes : TableField := mkTableField "K" "Codes" [code] Dynamic None.

End Scenario.

(** * Properties of the resolver *)

Section Resolver.
Implicit Types (fs pre post : list FormField) (values : gmap string Value).

(** A field list without a condition-carrying dropdown: the second loop
    runs to the end and leaves [jumpDropdownIdx] at [-1]. *)
Lemma findJumpDropdown_none i fs values :
  Forall (λ f, conditionOf f = None) fs →
  findJumpDropdown i fs values = (-1, None).
Proof.
  intros Hfs. revert i.
  induction Hfs as [|f fs Hf _ IH]; intros i; simpl; [done|].
  by rewrite Hf.
Qed.

(** The loop breaks at the first dropdown that carries a condition. *)
Lemma findJumpDropdown_first i pre f c post values :
  Forall (λ g, conditionOf g = None) pre →
  conditionOf f = Some c →
  findJumpDropdown i (pre ++ f :: post) values
  = (i + Z.of_nat (length pre), selectedTarget c (values !! field_id f)).
Proof.
  intros Hpre Hf. revert i.
  induction Hpre as [|g pre Hg _ IH]; intros i; simpl.
  - rewrite Hf. f_equal. lia.
  - rewrite Hg, IH. f_equal. lia.
Qed.

Lemma findIndexFrom_first {A} (p : A → bool) i (pre : list A) x (post : list A) :
  Forall (λ y, p y = false) pre → p x = true →
  JS.findIndexFrom p i (pre ++ x :: post) = i + Z.of_nat (length pre).
Proof.
  intros Hpre Hx. revert i.
  induction Hpre as [|y pre Hy _ IH]; intros i; simpl.
  - rewrite Hx. lia.
  - rewrite Hy, IH. lia.
Qed.

Lemma findIndexFrom_absent {A} (p : A → bool) i (l : list A) :
  Forall (λ y, p y = false) l → JS.findIndexFrom p i l = -1.
Proof.
  intros Hl. revert i.
  induction Hl as [|y l Hy _ IH]; intros i; simpl; [done|].
  by rewrite Hy.
Qed.

Lemma possibleJumpTargets_app fs1 fs2 :
  possibleJumpTargets (fs1 ++ fs2)
  = possibleJumpTargets fs1 ∪ possibleJumpTargets fs2.
Proof.
  induction fs1 as [|f fs1 IH]; simpl.
  - by rewrite (left_id_L ∅ (∪)).
  - by rewrite IH, (assoc_L (∪)).
Qed.

Lemma possibleJumpTargets_none fs :
  Forall (λ f, conditionOf f = None) fs → possibleJumpTargets fs = ∅.
Proof.
  induction 1 as [|f fs Hf _ IH]; simpl; [done|].
  by rewrite Hf, IH, (left_id_L ∅ (∪)).
Qed.

(** A non-empty selected option that the condition map sends to a
    non-empty id selects that id. *)
Lemma selectedTarget_string c (selected t : string) :
  selected ≠ "" → c !! selected = Some t → t ≠ "" →
  selectedTarget c (Some (VString selected)) = Some t.
Proof.
  intros Hselected Hc Ht. unfold selectedTarget. simpl.
  unfold JS.truthyString.
  rewrite (bool_decide_eq_false_2 (selected = "")) by done. simpl.
  rewrite Hc. by rewrite (bool_decide_eq_false_2 (t = "")) by done.
Qed.

(** A selected target is one of the possible jump targets. *)
Lemma selectedTarget_possible c v t :
  selectedTarget c v = Some t → t ∈ conditionTargets c.
Proof.
  unfold selectedTarget, conditionTargets.
  destruct v as [x|]; [|done].
  destruct (JS.truthy (Some x)); [|done].
  destruct (c !! JS.toPropertyKey x) as [t'|] eqn:Hc; [|done].
  destruct (JS.truthyString t') eqn:Ht; [|done].
  intros [= <-]. apply elem_of_filter. split; [done|].
  apply elem_of_map_img. eauto.
Qed.

Lemma filter_shownAfter_None (targets : gset string) (l : list FormField) :
  filter (shownAfter targets None) l
  = filter (λ f, field_id f ∉ targets) l.
Proof.
  apply list_filter_iff. intros f. unfold shownAfter.
  split; [intros [?|?]; done | by left].
Qed.

(** After the selected target's own field, a field with another id is
    shown exactly when its id is no possible jump target. *)
Lemma filter_shownAfter_Some (targets : gset string) t (l : list FormField) :
  Forall (λ f, field_id f ≠ t) l →
  filter (shownAfter targets (Some t)) l
  = filter (λ f, field_id f ∉ targets) l.
Proof.
  induction 1 as [|f l Hf _ IH]; [done|].
  rewrite !filter_cons, IH.
  destruct (decide (shownAfter targets (Some t) f)) as [Hs|Hs];
    destruct (decide (field_id f ∉ targets)) as [Hn|Hn]; try done.
  - destruct Hs as [?|[= ?]]; done.
  - destruct Hs. by left.
Qed.

(** The shape of the result when there is a condition-carrying dropdown:
    the dropdown, then the selected target if any, then the scan from
    [afterIdx]. *)
Lemma getVisibleFieldIds_branch pre f c post values :
  Forall (λ g, conditionOf g = None) pre →
  conditionOf f = Some c →
  let fs := pre ++ f :: post in
  let jumpTargetId := selectedTarget c (values !! field_id f) in
  getVisibleFieldIds fs values
  = field_id f
    :: match jumpTargetId with Some t => [t] | None => [] end
    ++ (field_id <$>
          filter (shownAfter (possibleJumpTargets fs) jumpTargetId)
            (drop (Z.to_nat (afterIdx fs (Z.of_nat (length pre)) jumpTargetId)) fs)).
Proof.
  intros Hpre Hf fs jt. subst fs jt. unfold getVisibleFieldIds.
  rewrite (findJumpDropdown_first 0 pre f c post values Hpre Hf).
  rewrite Z.add_0_l.
  replace (Z.of_nat (length pre) =? -1) with false by (symmetry; apply Z.eqb_neq; lia).
  simpl negb. cbv iota.
  rewrite Nat2Z.id.
  rewrite list_lookup_middle by done. done.
Qed.

(** The first loop collects exactly the ids that some dropdown of the list
    names as a target. *)
Lemma elem_of_conditionTargets c (id : string) :
  id ∈ conditionTargets c ↔ id ≠ "" ∧ ∃ opt, c !! opt = Some id.
Proof.
  unfold conditionTargets. rewrite elem_of_filter, elem_of_map_img.
  unfold JS.truthyString. rewrite negb_true_iff, bool_decide_eq_false. done.
Qed.

Lemma elem_of_possibleJumpTargets fs (id : string) :
  id ∈ possibleJumpTargets fs ↔ isConditionTarget fs id.
Proof.
  unfold isConditionTarget. induction fs as [|f fs IH]; simpl.
  - split; [by intros ?%not_elem_of_empty|].
    by intros (d & c & opt & ?%elem_of_nil & _).
  - rewrite elem_of_union, IH. split.
    + intros [Hf|(d & c & opt & Hd & Hrest)].
      * destruct f as [t|d|t]; simpl in Hf; try by apply not_elem_of_empty in Hf.
        destruct (condition d) as [c|] eqn:Hc; [|by apply not_elem_of_empty in Hf].
        apply elem_of_conditionTargets in Hf as [Hid [opt Hopt]].
        exists d, c, opt. split; [apply list_elem_of_here|done].
      * exists d, c, opt. split; [by apply list_elem_of_further|done].
    + intros (d & c & opt & [<-|Hd]%elem_of_cons & Hc & Hopt & Hid).
      * left. simpl. rewrite Hc. apply elem_of_conditionTargets. eauto.
      * right. by exists d, c, opt.
Qed.

(** The shape of the result when the selected target is the id of a field:
    the scan starts after the first field with that id. *)
Lemma getVisibleFieldIds_selected pre f c post before tf after values :
  Forall (λ g, conditionOf g = None) pre →
  conditionOf f = Some c →
  selectedTarget c (values !! field_id f) = Some (field_id tf) →
  pre ++ f :: post = before ++ tf :: after →
  Forall (λ g, field_id g ≠ field_id tf) before →
  getVisibleFieldIds (pre ++ f :: post) values
  = field_id f :: field_id tf
    :: (field_id <$>
          filter (shownAfter (possibleJumpTargets (pre ++ f :: post))
                    (Some (field_id tf))) after).
Proof.
  intros Hpre Hf Hsel Hsplit Hbefore.
  rewrite (getVisibleFieldIds_branch pre f c post values Hpre Hf), Hsel.
  simpl app. do 2 f_equal.
  unfold afterIdx, JS.findIndex.
  generalize (possibleJumpTargets (pre ++ f :: post)). intros targets.
  rewrite Hsplit.
  rewrite (findIndexFrom_first _ 0 before tf after).
  - replace (Z.to_nat (0 + Z.of_nat (length before) + 1))
      with (length before + 1)%nat by lia.
    rewrite <- drop_drop, drop_app_length. done.
  - eapply Forall_impl; [exact Hbefore|].
    intros g Hg. by apply bool_decide_eq_false.
  - by apply bool_decide_eq_true.
Qed.

End Resolver.

(** Scenario A of the specification. *)
Example branching_selected_resolve :
  getVisibleFieldIds Scenario.branching {["D" := VString "Yes"]} = ["D"; "Q2"].
Proof. by vm_compute. Qed.

(** C1, as stated, fails on Scenario B: with no selection the resolver
    shows the branching dropdown and then [Q1], which follows it and is no
    jump target; the result is not the one-element list. *)
Lemma resolve_unselected_counterexample :
  Forall (λ f, conditionOf f = None) [Scenario.Q1; Scenario.Q2]
  ∧ condition Scenario.D = Some {["Yes" := "Q2"]}
  ∧ (∅ : gmap string Value) !! dropdown_id Scenario.D = None
  ∧ getVisibleFieldIds ([] ++ Dropdown Scenario.D :: [Scenario.Q1; Scenario.Q2]) ∅
    = ["D"; "Q1"]
  ∧ getVisibleFieldIds ([] ++ Dropdown Scenario.D :: [Scenario.Q1; Scenario.Q2]) ∅
    ≠ [dropdown_id Scenario.D].
Proof.
  split; [by repeat constructor|].
  split; [done|]. split; [done|].
  split; [by vm_compute|]. by vm_compute.
Qed.

(** C1, amended: for a field list with exactly one dropdown carrying a
    defined condition map and a value map in which that dropdown has no
    selection (unset, or the empty string), the resolver returns the
    dropdown's id followed by the ids of the fields after it that are not
    targets of its condition map, in order. *)
Theorem resolve_unselected pre (d : DropdownField) c post values :
  Forall (λ f, conditionOf f = None) (pre ++ post) →
  condition d = Some c →
  JS.truthy (values !! dropdown_id d) = false →
  getVisibleFieldIds (pre ++ Dropdown d :: post) values
  = dropdown_id d
    :: (field_id <$> filter (λ f, field_id f ∉ conditionTargets c) post).
Proof.
  intros [Hpre Hpost]%Forall_app Hc Hv.
  rewrite (getVisibleFieldIds_branch pre (Dropdown d) c post values Hpre Hc).
  simpl field_id.
  assert (selectedTarget c (values !! dropdown_id d) = None) as ->.
  { unfold selectedTarget. destruct (values !! dropdown_id d); [|done].
    by rewrite Hv. }
  unfold afterIdx. simpl app.
  replace (Z.to_nat (Z.of_nat (length pre) + 1)) with (length pre + 1)%nat by lia.
  rewrite <- drop_drop, drop_app_length. simpl drop.
  rewrite filter_shownAfter_None.
  rewrite possibleJumpTargets_app. simpl possibleJumpTargets. rewrite Hc.
  rewrite !possibleJumpTargets_none by done.
  by rewrite (left_id_L ∅ (∪)), (right_id_L ∅ (∪)).
Qed.

Lemma resolve_unselected_witness :
  Forall (λ f, conditionOf f = None) ([] ++ [Scenario.Q1; Scenario.Q2])
  ∧ getVisibleFieldIds ([] ++ Dropdown Scenario.D :: [Scenario.Q1; Scenario.Q2]) ∅
    = dropdown_id Scenario.D
      :: (field_id <$>
            filter (λ f, field_id f ∉ conditionTargets {["Yes" := "Q2"]})
              [Scenario.Q1; Scenario.Q2]).
Proof.
  assert (Forall (λ f, conditionOf f = None) ([] ++ [Scenario.Q1; Scenario.Q2]))
    as H by (by repeat constructor).
  split; [exact H|].
  apply (resolve_unselected [] Scenario.D {["Yes" := "Q2"]}
           [Scenario.Q1; Scenario.Q2] ∅ H); reflexivity.
Defined.

(** C2, as stated, fails: a dropdown whose condition map is defined but
    empty still counts as the branching dropdown, so the fields before it
    are dropped. *)
Lemma resolve_empty_condition_counterexample :
  Forall (λ f, ∀ c, conditionOf f = Some c → c = ∅) Scenario.emptyCondition
  ∧ getVisibleFieldIds Scenario.emptyCondition ∅ = ["E"; "Q1"]
  ∧ getVisibleFieldIds Scenario.emptyCondition ∅
    ≠ field_id <$> Scenario.emptyCondition.
Proof.
  split.
  { repeat constructor; simpl; intros c ?; by simplify_eq. }
  split; by vm_compute.
Qed.

(** C2, amended: for every field list in which no dropdown carries a
    defined condition map, and for every value map, the resolver returns
    all field ids in their original order. *)
Theorem resolve_no_condition fs values :
  Forall (λ f, conditionOf f = None) fs →
  getVisibleFieldIds fs values = field_id <$> fs.
Proof.
  intros Hfs. unfold getVisibleFieldIds.
  by rewrite (findJumpDropdown_none 0 fs values Hfs).
Qed.

Lemma resolve_no_condition_witness :
  Forall (λ f, conditionOf f = None) [Scenario.Q0; Scenario.Q1; Scenario.Q2]
  ∧ getVisibleFieldIds [Scenario.Q0; Scenario.Q1; Scenario.Q2]
      {["Q1" := VString "x"]}
    = ["Q0"; "Q1"; "Q2"].
Proof.
  assert (Forall (λ f, conditionOf f = None) [Scenario.Q0; Scenario.Q1; Scenario.Q2])
    as H by (by repeat constructor).
  split; [exact H|].
  exact (resolve_no_condition _ {["Q1" := VString "x"]} H).
Defined.

(** Field ids are unique within a form (data model); a target's field is
    then the only one with its id. *)
Lemma NoDup_field_id_split (l1 : list FormField) tf l2 :
  NoDup (field_id <$> l1 ++ tf :: l2) →
  Forall (λ f, field_id f ≠ field_id tf) l1
  ∧ Forall (λ f, field_id f ≠ field_id tf) l2.
Proof.
  rewrite fmap_app, fmap_cons.
  intros (_ & Hdisj & [Hnotin _]%NoDup_cons)%NoDup_app.
  split; apply Forall_forall; intros f Hf Heq.
  - apply (Hdisj (field_id f)).
    + apply list_elem_of_fmap. eauto.
    + rewrite Heq. left.
  - apply Hnotin. rewrite <- Heq. apply list_elem_of_fmap. eauto.
Qed.

(** C3: when the first condition-carrying dropdown's selected option maps
    to T, the id of one field, placed after the dropdown, the resolver
    returns the dropdown's id, then T, then the ids of exactly those fields
    after T's position whose id is not in the set of all condition-map
    targets, in original order; an id is in that set exactly when some
    dropdown of the list, the branching one or any other, maps an option to
    it. *)
Theorem resolve_selected pre (d : DropdownField) c mid tf post values :
  Forall (λ f, conditionOf f = None) pre →
  condition d = Some c →
  selectedTarget c (values !! dropdown_id d) = Some (field_id tf) →
  Forall (λ g, field_id g ≠ field_id tf) (pre ++ Dropdown d :: mid ++ post) →
  ∃ possibleTargets : gset string,
    (∀ id, id ∈ possibleTargets
           ↔ isConditionTarget (pre ++ Dropdown d :: mid ++ tf :: post) id)
    ∧ getVisibleFieldIds (pre ++ Dropdown d :: mid ++ tf :: post) values
      = dropdown_id d :: field_id tf
        :: (field_id <$> filter (λ f, field_id f ∉ possibleTargets) post).
Proof.
  intros Hpre Hc Hsel Hothers.
  exists (possibleJumpTargets (pre ++ Dropdown d :: mid ++ tf :: post)).
  split; [intros id; apply elem_of_possibleJumpTargets|].
  assert (Forall (λ g, field_id g ≠ field_id tf) (pre ++ Dropdown d :: mid)
          ∧ Forall (λ g, field_id g ≠ field_id tf) post) as [Hbefore Hafter].
  { apply Forall_app in Hothers as [? Hrest].
    apply Forall_cons in Hrest as [? [? ?]%Forall_app].
    split; [|done]. apply Forall_app. split; [done|]. by apply Forall_cons. }
  rewrite (getVisibleFieldIds_selected pre (Dropdown d) c (mid ++ tf :: post)
             (pre ++ Dropdown d :: mid) tf post values Hpre Hc Hsel).
  - by rewrite filter_shownAfter_Some.
  - by rewrite <- app_assoc.
  - done.
Qed.

Lemma resolve_selected_witness :
  Forall (λ g, field_id g ≠ field_id Scenario.Q2)
    ([] ++ Dropdown Scenario.F :: [Scenario.Q1]
        ++ [Scenario.Q3; Dropdown Scenario.G; Scenario.Q4; Scenario.Q0])
  ∧ selectedTarget {["Yes" := "Q2"; "No" := "Q3"]}
      (({["F" := VString "Yes"]} : gmap string Value) !! dropdown_id Scenario.F)
    = Some (field_id Scenario.Q2)
  ∧ isConditionTarget
      ([] ++ Dropdown Scenario.F :: [Scenario.Q1] ++ Scenario.Q2
          :: [Scenario.Q3; Dropdown Scenario.G; Scenario.Q4; Scenario.Q0]) "Q3"
  ∧ isConditionTarget
      ([] ++ Dropdown Scenario.F :: [Scenario.Q1] ++ Scenario.Q2
          :: [Scenario.Q3; Dropdown Scenario.G; Scenario.Q4; Scenario.Q0]) "Q4"
  ∧ getVisibleFieldIds
      ([] ++ Dropdown Scenario.F :: [Scenario.Q1] ++ Scenario.Q2
          :: [Scenario.Q3; Dropdown Scenario.G; Scenario.Q4; Scenario.Q0])
      {["F" := VString "Yes"]}
    = ["F"; "Q2"; "G"; "Q0"].
Proof.
  assert (Forall (λ g, field_id g ≠ field_id Scenario.Q2)
            ([] ++ Dropdown Scenario.F :: [Scenario.Q1]
                ++ [Scenario.Q3; Dropdown Scenario.G; Scenario.Q4; Scenario.Q0]))
    as Hothers by (by repeat constructor).
  assert (selectedTarget {["Yes" := "Q2"; "No" := "Q3"]}
            (({["F" := VString "Yes"]} : gmap string Value)
               !! dropdown_id Scenario.F)
          = Some (field_id Scenario.Q2)) as Hsel by (by vm_compute).
  destruct (resolve_selected [] Scenario.F {["Yes" := "Q2"; "No" := "Q3"]}
              [Scenario.Q1] Scenario.Q2
              [Scenario.Q3; Dropdown Scenario.G; Scenario.Q4; Scenario.Q0]
              {["F" := VString "Yes"]} (Forall_nil_2 _) eq_refl Hsel Hothers)
    as (targets & Htargets & Hresult).
  assert (isConditionTarget
            ([] ++ Dropdown Scenario.F :: [Scenario.Q1] ++ Scenario.Q2
                :: [Scenario.Q3; Dropdown Scenario.G; Scenario.Q4; Scenario.Q0])
            "Q3") as HQ3.
  { exists Scenario.F, {["Yes" := "Q2"; "No" := "Q3"]}, "No".
    split; [apply list_elem_of_here|]. by repeat split. }
  assert (isConditionTarget
            ([] ++ Dropdown Scenario.F :: [Scenario.Q1] ++ Scenario.Q2
                :: [Scenario.Q3; Dropdown Scenario.G; Scenario.Q4; Scenario.Q0])
            "Q4") as HQ4.
  { exists Scenario.G, {["A" := "Q4"]}, "A".
    split; [do 4 apply list_elem_of_further; apply list_elem_of_here|].
    by repeat split. }
  split; [exact Hothers|]. split; [exact Hsel|].
  split; [exact HQ3|]. split; [exact HQ4|].
  rewrite Hresult.
  assert (targets
          = possibleJumpTargets
              ([] ++ Dropdown Scenario.F :: [Scenario.Q1] ++ Scenario.Q2
                  :: [Scenario.Q3; Dropdown Scenario.G; Scenario.Q4; Scenario.Q0]))
    as ->.
  { apply set_eq. intros id. rewrite Htargets. symmetry.
    apply elem_of_possibleJumpTargets. }
  by vm_compute.
Defined.

(** C8: there is a field list with unique ids and a value map in which the
    selected jump target's field lies before the branching dropdown; the
    scan then starts at the target's index plus one, which is less than the
    dropdown's index plus one, and the result lists again the field between
    the two and the branching dropdown itself: the dropdown's id occurs
    twice in the result although it occurs once in the form. *)
Theorem resolve_target_before_branch :
  ∃ (fs : list FormField) (values : gmap string Value)
    (branchIdx targetIdx : Z) (branch : DropdownField) (target between : FormField),
    NoDup (field_id <$> fs)
    ∧ fs !! Z.to_nat targetIdx = Some target
    ∧ fs !! Z.to_nat (targetIdx + 1) = Some between
    ∧ fs !! Z.to_nat branchIdx = Some (Dropdown branch)
    ∧ 0 ≤ targetIdx ∧ targetIdx + 1 < branchIdx
    ∧ findJumpDropdown 0 fs values = (branchIdx, Some (field_id target))
    ∧ JS.findIndex (λ f, bool_decide (field_id f = field_id target)) fs = targetIdx
    ∧ afterIdx fs branchIdx (Some (field_id target)) = targetIdx + 1
    ∧ afterIdx fs branchIdx (Some (field_id target)) < branchIdx + 1
    ∧ getVisibleFieldIds fs values
      = [dropdown_id branch; field_id target; field_id between; dropdown_id branch]
    ∧ length (filter (λ id, id = dropdown_id branch) (field_id <$> fs)) = 1%nat
    ∧ length (filter (λ id, id = dropdown_id branch) (getVisibleFieldIds fs values))
      = 2%nat.
Proof.
  exists Scenario.backward, {["B" := VString "Yes"]}, 2, 0,
         Scenario.B, Scenario.Q1, Scenario.Q2.
  split; [compute_done|].
  repeat split; by vm_compute.
Qed.


(** * Strings and messages *)

Section Strings.
Implicit Types (a b c s suffix : string).

Lemma string_app_cons (x : ascii) a b : String x a +:+ b = String x (a +:+ b).
Proof. reflexivity. Qed.

Lemma string_app_assoc a b c : (a +:+ b) +:+ c = a +:+ b +:+ c.
Proof.
  induction a as [|x a IH]; [done|].
  by rewrite !string_app_cons, IH.
Qed.

Lemma string_length_app a b :
  String.length (a +:+ b) = (String.length a + String.length b)%nat.
Proof.
  induction a as [|x a IH]; [done|].
  rewrite string_app_cons. simpl. by rewrite IH.
Qed.

(** Whether a string ends with [suffix] is decided by any tail of it that
    is at least as long as [suffix]. *)
Lemma endsWith_app suffix a b :
  (String.length suffix ≤ String.length b)%nat →
  endsWith suffix (a +:+ b) = endsWith suffix b.
Proof.
  intros Hlen. induction a as [|x a IH]; [done|].
  rewrite string_app_cons. simpl. rewrite IH.
  rewrite bool_decide_eq_false_2; [done|].
  intros Heq. apply (f_equal String.length) in Heq.
  simpl in Heq. rewrite string_length_app in Heq. lia.
Qed.

Lemma endsWith_spec suffix s :
  endsWith suffix s = true ↔ ∃ a, s = a +:+ suffix.
Proof.
  induction s as [|x s IH]; simpl.
  - rewrite orb_false_r, bool_decide_eq_true. split.
    + intros <-. by exists "".
    + intros [[|y a] Ha]; [done|]. by rewrite string_app_cons in Ha.
  - rewrite orb_true_iff, bool_decide_eq_true, IH. split.
    + intros [<-|[a ->]]; [by exists ""|]. by exists (String x a).
    + intros [[|y a] Ha]; [by left|].
      rewrite string_app_cons in Ha. injection Ha as -> ->. right. by exists a.
Qed.

(** A string that ends with [p +:+ q] ends with [q]. *)
Lemma endsWith_weaken p q s :
  endsWith q s = false → endsWith (p +:+ q) s = false.
Proof.
  intros Hq. destruct (endsWith (p +:+ q) s) eqn:Hpq; [|done].
  apply endsWith_spec in Hpq as [a ->].
  rewrite <- Hq. symmetry. apply endsWith_spec.
  exists (a +:+ p). by rewrite string_app_assoc.
Qed.

(** The messages of the length and membership rules are no messages of the
    required rule. *)
Lemma not_required_characters a : isRequiredError (a +:+ " characters.") = false.
Proof.
  apply (endsWith_weaken " is " "required.").
  by rewrite endsWith_app by (simpl; lia).
Qed.

Lemma not_required_not_valid a : isRequiredError (a +:+ " value is not valid.") = false.
Proof.
  apply (endsWith_weaken " is " "required.").
  by rewrite endsWith_app by (simpl; lia).
Qed.

Lemma is_required_required a : isRequiredError (a +:+ " is required.") = true.
Proof. apply endsWith_spec. by exists a. Qed.

End Strings.

(** Closes the goal that a length or membership message, whatever its
    prefix, is no message of the required rule. *)
Ltac not_required :=
  rewrite <- ?string_app_assoc;
  first [apply not_required_characters | apply not_required_not_valid].

(** Rewrites the test [visibleIdsSet.has(field.id)] of a visible field. *)
Ltac visible_field :=
  rewrite bool_decide_eq_true_2 by (by rewrite ?elem_of_list_to_set).

Lemma Forall_pushIf (P : string → Prop) c msg :
  (c = true → P msg) → Forall P (pushIf c msg).
Proof. destruct c; simpl; auto. Qed.

Lemma Forall_concat_imap {A B} (P : B → Prop) (f : nat → A → list B) (l : list A) :
  (∀ i x, Forall P (f i x)) → Forall P (concat (imap f l)).
Proof.
  revert f. induction l as [|x l IH]; intros f Hf; simpl; [done|].
  apply Forall_app. split; [done|]. apply IH. intros i y. apply Hf.
Qed.

Lemma Forall_concat_fmap {A B} (P : B → Prop) (f : A → list B) (l : list A) :
  (∀ x, Forall P (f x)) → Forall P (concat (f <$> l)).
Proof.
  intros Hf. induction l as [|x l IH]; simpl; [done|].
  apply Forall_app. by split.
Qed.

(** * Properties of the client-side validator *)

Section ClientValidator.
Implicit Types (values : gmap string Value) (vis : gset string).

Lemma validateFields_nil jt vis values :
  Client.validateFields jt vis values [] = Some [].
Proof. done. Qed.

(** One more iteration of [forEach]: the messages of the field come first. *)
Lemma validateFields_cons jt vis values f fs :
  Client.validateFields jt vis values (f :: fs)
  = errs ← Client.fieldErrors jt vis values f;
    rest ← Client.validateFields jt vis values fs;
    Some (errs ++ rest).
Proof.
  unfold Client.validateFields. simpl.
  destruct (Client.fieldErrors jt vis values f) as [errs|]; simpl; [|done].
  by destruct (mapM (Client.fieldErrors jt vis values) fs).
Qed.

(** A field that is not visible is skipped. *)
Lemma fieldErrors_hidden jt vis values f :
  field_id f ∉ vis → Client.fieldErrors jt vis values f = Some [].
Proof.
  intros Hf. unfold Client.fieldErrors.
  by rewrite bool_decide_eq_false_2.
Qed.

(** Every message of the result was pushed for some field of the list. *)
Lemma validateFields_origin jt vis values fs errs e :
  Client.validateFields jt vis values fs = Some errs → e ∈ errs →
  ∃ f l, f ∈ fs ∧ Client.fieldErrors jt vis values f = Some l ∧ e ∈ l.
Proof.
  revert errs. induction fs as [|f fs IH]; intros errs.
  - intros [= <-] He. by apply elem_of_nil in He.
  - rewrite validateFields_cons.
    destruct (Client.fieldErrors jt vis values f) as [l|] eqn:Hl; [|done].
    simpl.
    destruct (Client.validateFields jt vis values fs) as [rest|]; [|done].
    intros [= <-] [He|He]%elem_of_app.
    + exists f, l. split; [apply list_elem_of_here | done].
    + destruct (IH rest eq_refl He) as (g & k & Hg & Hk & Hek).
      exists g, k. split; [by apply list_elem_of_further | done].
Qed.

Lemma validateFields_filter jt vis values fs :
  Client.validateFields jt vis values fs
  = Client.validateFields jt vis values (filter (λ f, field_id f ∈ vis) fs).
Proof.
  induction fs as [|f fs IH]; [done|].
  rewrite filter_cons. destruct (decide (field_id f ∈ vis)) as [Hf|Hf].
  - by rewrite !validateFields_cons, IH.
  - rewrite validateFields_cons, fieldErrors_hidden by done. simpl.
    rewrite <- IH. by destruct (Client.validateFields jt vis values fs).
Qed.

Lemma effectiveRequired_suppressed t vis id req :
  t ∈ vis → id ≠ t → Client.effectiveRequired (Some t) vis id req = false.
Proof.
  intros Ht Hid. unfold Client.effectiveRequired, Client.suppressRequired.
  by rewrite bool_decide_eq_false_2, bool_decide_eq_true_2.
Qed.

Lemma effectiveRequired_target t vis req :
  Client.effectiveRequired (Some t) vis t req = JS.truthyFlag req.
Proof.
  unfold Client.effectiveRequired, Client.suppressRequired.
  by rewrite bool_decide_eq_true_2.
Qed.

Lemma effectiveRequired_None vis id req :
  Client.effectiveRequired None vis id req = JS.truthyFlag req.
Proof. done. Qed.

Lemma dropRequired_required v : JS.truthyFlag (dropRequired v ≫= required) = false.
Proof. by destruct v. Qed.

Lemma dropRequired_minLength v : dropRequired v ≫= minLength = v ≫= minLength.
Proof. by destruct v. Qed.

Lemma dropRequired_maxLength v : dropRequired v ≫= maxLength = v ≫= maxLength.
Proof. by destruct v. Qed.

Lemma field_id_withoutRequired f : field_id (withoutRequired f) = field_id f.
Proof. by destruct f. Qed.

(** With the required flag off, no message of a cell is one of the
    required rule. *)
Lemma cellErrors_not_required t rowIdx row col :
  Forall (λ e, isRequiredError e = false) (Client.cellErrors t false rowIdx row col).
Proof.
  unfold Client.cellErrors. rewrite !andb_false_r. simpl pushIf at 1.
  repeat apply Forall_app_2; try done.
  - destruct (col_validation col ≫= minLength); [|done].
    apply Forall_pushIf. intros _. not_required.
  - destruct (col_validation col ≫= maxLength); [|done].
    apply Forall_pushIf. intros _. not_required.
  - destruct (row !! col_id col), (col_options col); try done.
    apply Forall_pushIf. intros _. not_required.
Qed.

(** A visible field other than the selected target, the target being
    visible too: the field is validated as if its required flags were off,
    and none of its messages is one of the required rule. *)
Lemma fieldErrors_suppressed t vis values f :
  t ∈ vis → field_id f ≠ t →
  Client.fieldErrors (Some t) vis values f
  = Client.fieldErrors None vis values (withoutRequired f)
  ∧ ∃ errs, Client.fieldErrors (Some t) vis values f = Some errs
            ∧ Forall (λ e, isRequiredError e = false) errs.
Proof.
  intros Ht Hf. unfold Client.fieldErrors.
  rewrite field_id_withoutRequired.
  destruct (bool_decide (field_id f ∈ vis)); [|by eauto].
  destruct f as [tf|d|tb]; simpl in Hf; simpl.
  - rewrite effectiveRequired_suppressed, effectiveRequired_None by done.
    rewrite dropRequired_required.
    unfold Client.textErrors. simpl.
    rewrite dropRequired_minLength, dropRequired_maxLength.
    split; [done|]. eexists. split; [done|].
    simpl. apply Forall_app_2.
    + destruct (text_validation tf ≫= minLength); [|done].
      apply Forall_pushIf. intros _. not_required.
    + destruct (text_validation tf ≫= maxLength); [|done].
      apply Forall_pushIf. intros _. not_required.
  - rewrite effectiveRequired_suppressed, effectiveRequired_None by done.
    simpl. split; [done|]. eexists. split; [done|].
    unfold Client.dropdownErrors. simpl.
    destruct (values !! dropdown_id d); [|done].
    apply Forall_pushIf. intros _. not_required.
  - destruct (values !! table_id tb) as [[s|rows]|]; try by eauto.
    assert (∀ col, Client.effectiveRequired (Some t) vis (table_id tb)
                     (col_validation col ≫= required) = false) as Hreq
      by (intros; by apply effectiveRequired_suppressed).
    split.
    + f_equal. unfold Client.tableErrors. simpl. f_equal.
      apply imap_ext. intros i row _. simpl. f_equal.
      rewrite <- list_fmap_compose. apply list_fmap_ext. intros j col _. simpl.
      rewrite Hreq, effectiveRequired_None, dropRequired_required.
      unfold Client.cellErrors, Client.cellPrefix. simpl.
      by rewrite dropRequired_minLength, dropRequired_maxLength.
    + eexists. split; [done|]. unfold Client.tableErrors.
      apply Forall_concat_imap. intros i row.
      apply Forall_concat_fmap. intros col. rewrite Hreq.
      apply cellErrors_not_required.
Qed.

(** The selected target itself keeps its required rule. *)
Lemma fieldErrors_target t vis values f :
  field_id f = t →
  Client.fieldErrors (Some t) vis values f = Client.fieldErrors None vis values f.
Proof.
  intros <-. unfold Client.fieldErrors.
  destruct (bool_decide (field_id f ∈ vis)); [|done].
  destruct f as [tf|d|tb]; simpl.
  - by rewrite effectiveRequired_target.
  - by rewrite effectiveRequired_target.
  - destruct (values !! table_id tb) as [[s|rows]|]; try done.
    f_equal. unfold Client.tableErrors. f_equal.
    apply imap_ext. intros i row _. simpl. f_equal.
    apply list_fmap_ext. intros j col _.
    by rewrite effectiveRequired_target.
Qed.

Lemma validateFields_requiredOnlyFor t vis values fs :
  t ∈ vis →
  Client.validateFields (Some t) vis values fs
  = Client.validateFields None vis values (requiredOnlyFor t <$> fs).
Proof.
  intros Ht. induction fs as [|f fs IH]; [done|].
  rewrite fmap_cons, !validateFields_cons, IH. f_equal.
  unfold requiredOnlyFor. destruct (decide (field_id f = t)) as [Hf|Hf].
  - by apply fieldErrors_target.
  - by apply fieldErrors_suppressed.
Qed.

(** Without a visible target nothing is suppressed. *)
Lemma validateFields_target_hidden t vis values fs :
  t ∉ vis →
  Client.validateFields (Some t) vis values fs
  = Client.validateFields None vis values fs.
Proof.
  intros Ht. unfold Client.validateFields. f_equal.
  apply mapM_ext. intros f. unfold Client.fieldErrors.
  assert (∀ id req, Client.effectiveRequired (Some t) vis id req
                    = Client.effectiveRequired None vis id req) as Hreq.
  { intros id req. unfold Client.effectiveRequired, Client.suppressRequired.
    by rewrite (bool_decide_eq_false_2 (t ∈ vis)), andb_false_r by done. }
  destruct (bool_decide (field_id f ∈ vis)); [|done].
  destruct f as [tf|d|tb]; simpl; rewrite ?Hreq; try done.
  destruct (values !! table_id tb) as [[s|rows]|]; try done.
  f_equal. unfold Client.tableErrors. f_equal.
  apply imap_ext. intros i row _. simpl. f_equal.
  apply list_fmap_ext. intros j col _. by rewrite Hreq.
Qed.

End ClientValidator.

(** C5: every message returned by [validate] is pushed while processing a
    field whose id is in [visibleIds]; a field whose id is not in
    [visibleIds] pushes nothing, whatever its rules and value, and the
    result is the one obtained from the visible fields alone. *)
Theorem validate_skips_hidden values form (visibleFieldIds : list string) :
  (∀ errs e,
     Client.validateFormResponse values form visibleFieldIds = Some errs →
     e ∈ errs →
     ∃ f l, f ∈ fields form ∧ field_id f ∈ visibleFieldIds
            ∧ Client.fieldErrors (Client.jumpTarget (fields form) values)
                (list_to_set visibleFieldIds) values f = Some l
            ∧ e ∈ l)
  ∧ (∀ jumpTargetId f,
       field_id f ∉ visibleFieldIds →
       Client.fieldErrors jumpTargetId (list_to_set visibleFieldIds) values f
       = Some [])
  ∧ Client.validateFormResponse values form visibleFieldIds
    = Client.validateFields (Client.jumpTarget (fields form) values)
        (list_to_set visibleFieldIds) values
        (filter (λ f, field_id f ∈ visibleFieldIds) (fields form)).
Proof.
  assert (∀ jt f, field_id f ∉ visibleFieldIds →
            Client.fieldErrors jt (list_to_set visibleFieldIds) values f
            = Some []) as Hhidden.
  { intros jt f Hf. apply fieldErrors_hidden. by rewrite elem_of_list_to_set. }
  split; [|split; [exact Hhidden|]].
  - intros errs e Herrs He.
    destruct (validateFields_origin _ _ _ _ _ _ Herrs He) as (f & l & Hf & Hl & Hel).
    exists f, l. split; [done|]. split; [|done].
    destruct (decide (field_id f ∈ visibleFieldIds)) as [|Hnot]; [done|].
    rewrite (Hhidden _ f Hnot) in Hl. simplify_eq. by apply elem_of_nil in Hel.
  - unfold Client.validateFormResponse.
    rewrite validateFields_filter. f_equal.
    apply list_filter_iff. intros f. by rewrite elem_of_list_to_set.
Qed.

Lemma validate_skips_hidden_witness :
  (field_id Scenario.Q1 ∉ ["D"; "Q2"])
  ∧ Client.fieldErrors (Some "Q2") (list_to_set ["D"; "Q2"]) ∅ Scenario.Q1
    = Some [].
Proof.
  assert (field_id Scenario.Q1 ∉ ["D"; "Q2"]) as H by compute_done.
  split; [exact H|].
  exact (proj1 (proj2 (validate_skips_hidden ∅
                         (mkFormSchema None "form" Scenario.branching)
                         ["D"; "Q2"]))
           (Some "Q2") Scenario.Q1 H).
Defined.

(** C4, as stated, fails: the required rule of the other visible fields is
    switched off only while the jump target is itself in [visibleIds]. Here
    the target [Q2] is selected but not in [visibleIds], and the required
    rule of the visible field [Q1] is applied. *)
Lemma validate_hidden_target_counterexample :
  Client.jumpTarget Scenario.branching {["D" := VString "Yes"]} = Some "Q2"
  ∧ ("Q1" ∈ ["D"; "Q1"])
  ∧ field_id Scenario.Q1 ≠ "Q2"
  ∧ Client.validateFormResponse {["D" := VString "Yes"]}
      (mkFormSchema None "form" Scenario.branching) ["D"; "Q1"]
    = Some ["Q1 is required."]
  ∧ isRequiredError "Q1 is required." = true.
Proof.
  split; [by vm_compute|]. split; [compute_done|]. split; [done|].
  split; by vm_compute.
Qed.

(** C4, amended: when a jump target id is determined, [validate] behaves on
    a [visibleIds] list that contains the target as on the form in which
    only the field whose id equals the target keeps its required rule:
    every other field is validated with required forced to false and pushes
    no "is required." message, so every such message of the result comes
    from the target's field. On a [visibleIds] list that does not contain
    the target, no required rule is suppressed. *)
Theorem validate_required_only_for_target values form
    (visibleFieldIds : list string) t :
  Client.jumpTarget (fields form) values = Some t →
  Client.validateFormResponse values form visibleFieldIds
  = Client.validateFields None (list_to_set visibleFieldIds) values
      (if decide (t ∈ visibleFieldIds)
       then requiredOnlyFor t <$> fields form
       else fields form)
  ∧ (t ∈ visibleFieldIds →
     (∀ f, field_id f ≠ t →
        ∃ errs,
          Client.fieldErrors (Some t) (list_to_set visibleFieldIds) values f
          = Some errs
          ∧ Forall (λ e, isRequiredError e = false) errs)
     ∧ (∀ errs e,
          Client.validateFormResponse values form visibleFieldIds = Some errs →
          e ∈ errs → isRequiredError e = true →
          ∃ f l, f ∈ fields form ∧ field_id f = t
                 ∧ Client.fieldErrors (Some t) (list_to_set visibleFieldIds)
                     values f = Some l
                 ∧ e ∈ l)).
Proof.
  intros Hjt. split.
  - unfold Client.validateFormResponse. rewrite Hjt.
    destruct (decide (t ∈ visibleFieldIds)) as [Ht|Ht].
    + apply validateFields_requiredOnlyFor. by rewrite elem_of_list_to_set.
    + apply validateFields_target_hidden. by rewrite elem_of_list_to_set.
  - intros Ht.
    assert (∀ f, field_id f ≠ t →
              ∃ errs,
                Client.fieldErrors (Some t) (list_to_set visibleFieldIds) values f
                = Some errs
                ∧ Forall (λ e, isRequiredError e = false) errs) as Hothers.
    { intros f Hf.
      apply fieldErrors_suppressed; [by rewrite elem_of_list_to_set | done]. }
    split; [exact Hothers|].
    intros errs e Herrs He Hreq.
    unfold Client.validateFormResponse in Herrs. rewrite Hjt in Herrs.
    destruct (validateFields_origin _ _ _ _ _ _ Herrs He) as (f & l & Hf & Hl & Hel).
    exists f, l. split; [done|]. split; [|done].
    destruct (decide (field_id f = t)) as [|Hne]; [done|].
    destruct (Hothers f Hne) as (l' & Hl' & Hnone).
    rewrite Hl in Hl'. injection Hl' as <-.
    rewrite Forall_forall in Hnone. rewrite (Hnone e Hel) in Hreq. done.
Qed.

Lemma validate_required_only_for_target_witness :
  Client.jumpTarget Scenario.branching {["D" := VString "Yes"]} = Some "Q2"
  ∧ Client.validateFormResponse {["D" := VString "Yes"]}
      (mkFormSchema None "form" Scenario.branching) ["D"; "Q1"; "Q2"]
    = Some ["Q2 is required."].
Proof.
  assert (Client.jumpTarget Scenario.branching {["D" := VString "Yes"]}
          = Some "Q2") as H by (by vm_compute).
  split; [exact H|].
  etrans;
    [exact (proj1 (validate_required_only_for_target {["D" := VString "Yes"]}
                     (mkFormSchema None "form" Scenario.branching)
                     ["D"; "Q1"; "Q2"] "Q2" H))
    | by vm_compute].
Defined.

(** C7 (Scenario D): a visible dynamic table with one required dropdown
    column whose options are A and B, holding two rows, the first with an
    empty cell and the second with the cell "C": [validate] returns exactly
    the required message for row 1 and the invalid-value message for row 2
    (rows are numbered from 1). *)
Theorem validate_scenario_D (fid flabel cid clabel : string)
    (mn mx : option Z) (rl : option (list string))
    (formId : option string) (formTitle : string)
    (row0 row1 : gmap string string)
    (values : gmap string Value) (visibleFieldIds : list string) :
  JS.truthyCell (row0 !! cid) = false →
  row1 !! cid = Some "C" →
  values !! fid = Some (VRows [row0; row1]) →
  fid ∈ visibleFieldIds →
  Client.validateFormResponse values
    (mkFormSchema formId formTitle
       [Table (mkTableField fid flabel
                 [mkTableColumn cid ColDropdown clabel (Some ["A"; "B"])
                    (Some (mkValidation (Some true) mn mx))]
                 Dynamic rl)])
    visibleFieldIds
  = Some [clabel +:+ " in " +:+ flabel +:+ " row 1 is required.";
          clabel +:+ " in " +:+ flabel +:+ " row 2 value is not valid."].
Proof.
  intros Hrow0 Hrow1 Hvalue Hvisible.
  unfold Client.validateFormResponse, Client.validateFields. simpl.
  unfold Client.fieldErrors. simpl.
  visible_field.
  rewrite Hvalue. simpl.
  unfold Client.tableErrors, Client.cellErrors, Client.cellPrefix. simpl.
  rewrite Hrow1.
  change (pretty (0 + 1)%nat) with "1". change (pretty (1 + 1)%nat) with "2".
  destruct mn, mx; simpl; rewrite ?andb_false_r; simpl;
    destruct (row0 !! cid) as [cell|]; simpl in *; rewrite ?Hrow0; simpl;
    by rewrite !string_app_assoc.
Qed.

Lemma validate_scenario_D_witness :
  JS.truthyCell ((∅ : gmap string string) !! "c") = false
  ∧ ("T" ∈ ["T"])
  ∧ Client.validateFormResponse {["T" := VRows [∅; {["c" := "C"]}]]}
      (mkFormSchema None "form"
         [Table (mkTableField "T" "Items"
                   [mkTableColumn "c" ColDropdown "Kind" (Some ["A"; "B"])
                      (Some (mkValidation (Some true) None None))]
                   Dynamic None)])
      ["T"]
    = Some ["Kind in Items row 1 is required.";
            "Kind in Items row 2 value is not valid."].
Proof.
  assert ("T" ∈ ["T"]) as H by compute_done.
  split; [reflexivity|]. split; [exact H|].
  exact (validate_scenario_D "T" "Items" "c" "Kind" None None None None "form"
           ∅ {["c" := "C"]} {["T" := VRows [∅; {["c" := "C"]}]]} ["T"]
           eq_refl eq_refl eq_refl H).
Defined.

(** * Membership in the accumulated messages *)

Lemma elem_of_concat_imap {A B} (f : nat → A → list B) (l : list A) i x e :
  l !! i = Some x → e ∈ f i x → e ∈ concat (imap f l).
Proof.
  revert f i. induction l as [|y l IH]; intros f i Hl He; [done|].
  simpl. apply elem_of_app. destruct i as [|i]; simpl in Hl.
  - left. by simplify_eq.
  - right. by apply (IH (f ∘ S) i).
Qed.

Lemma elem_of_concat_fmap {A B} (f : A → list B) (l : list A) x e :
  x ∈ l → e ∈ f x → e ∈ concat (f <$> l).
Proof.
  intros Hx He. induction Hx as [x l|x y l _ IH]; simpl;
    apply elem_of_app; auto.
Qed.

(** The messages of a field are part of the validator's result. *)
Lemma validateFields_elem jt vis values fs f errs l e :
  Client.validateFields jt vis values fs = Some errs →
  f ∈ fs → Client.fieldErrors jt vis values f = Some l → e ∈ l → e ∈ errs.
Proof.
  intros Hv Hf Hl He. revert errs Hv.
  induction Hf as [f fs|f g fs _ IH]; intros errs; rewrite validateFields_cons.
  - rewrite Hl. simpl.
    destruct (Client.validateFields jt vis values fs); [|done].
    intros [= <-]. apply elem_of_app. by left.
  - destruct (Client.fieldErrors jt vis values g); [|done]. simpl.
    destruct (Client.validateFields jt vis values fs) as [rest|]; [|done].
    intros [= <-]. apply elem_of_app. right. by apply IH.
Qed.

(** The server checks option membership of a cell whatever the column's
    type, like the client; its message has no row number. *)
Lemma server_membership_any_type values (t : TableField) rows
    (row : gmap string string) (col : TableColumn) (cell : string)
    (opts : list string) :
  values !! table_id t = Some (VRows rows) →
  row ∈ rows → col ∈ columns t →
  row !! col_id col = Some cell → cell ≠ "" →
  col_options col = Some opts → cell ∉ opts →
  ∃ errs, Server.fieldErrors values (Table t) = Some errs
          ∧ col_label col +:+ " in " +:+ table_label t +:+ " value is not valid."
            ∈ errs.
Proof.
  intros Hvalue Hrow Hcol Hcell Hnonempty Hopts Hnotin.
  unfold Server.fieldErrors. simpl. rewrite Hvalue. eexists. split; [done|].
  apply elem_of_app. right. unfold Server.tableErrors.
  eapply elem_of_concat_fmap; [exact Hrow|].
  eapply elem_of_concat_fmap; [exact Hcol|].
  unfold Server.cellErrors. rewrite Hcell, Hopts.
  rewrite !elem_of_app. do 2 right.
  unfold JS.truthyString.
  rewrite (bool_decide_eq_false_2 (cell = "")) by done.
  rewrite (bool_decide_eq_false_2 (cell ∈ opts)) by done.
  simpl. apply list_elem_of_singleton. by rewrite !string_app_assoc.
Qed.

(** C10: in table-cell validation the message "{col.label} in
    {field.label} row {n} value is not valid." is pushed for every
    non-empty cell whose column carries an options array that does not
    contain the cell's value, whatever the column's declared type: the
    table's pass returns, its messages contain this one, and so does every
    result of [validate] on a form that contains the table. The server
    makes the same check, also whatever the column's type; its message has
    no row number. *)
Theorem cell_membership_any_type values form (visibleFieldIds : list string)
    (t : TableField) rows (rowIdx : nat) (row : gmap string string)
    (col : TableColumn) (cell : string) (opts : list string) :
  Table t ∈ fields form →
  table_id t ∈ visibleFieldIds →
  values !! table_id t = Some (VRows rows) →
  rows !! rowIdx = Some row →
  col ∈ columns t →
  row !! col_id col = Some cell →
  cell ≠ "" →
  col_options col = Some opts →
  cell ∉ opts →
  let msg := col_label col +:+ " in " +:+ table_label t +:+ " row "
             +:+ pretty (rowIdx + 1)%nat +:+ " value is not valid." in
  (∀ jumpTargetId,
     ∃ errs, Client.fieldErrors jumpTargetId (list_to_set visibleFieldIds)
               values (Table t) = Some errs
             ∧ msg ∈ errs)
  ∧ (∀ errs, Client.validateFormResponse values form visibleFieldIds = Some errs →
             msg ∈ errs)
  ∧ ∃ errs, Server.fieldErrors values (Table t) = Some errs
            ∧ col_label col +:+ " in " +:+ table_label t +:+ " value is not valid."
              ∈ errs.
Proof.
  intros Hfield Hvisible Hvalue Hrow Hcol Hcell Hnonempty Hopts Hnotin msg.
  assert (∃ errs, Server.fieldErrors values (Table t) = Some errs
            ∧ col_label col +:+ " in " +:+ table_label t +:+ " value is not valid."
              ∈ errs) as Hserver.
  { apply (server_membership_any_type values t rows row col cell opts);
      try done.
    by apply list_elem_of_lookup_2 with rowIdx. }
  assert (∀ jt, ∃ errs,
            Client.fieldErrors jt (list_to_set visibleFieldIds) values (Table t)
            = Some errs ∧ msg ∈ errs) as Hpass.
  { intros jt. unfold Client.fieldErrors. simpl.
    visible_field.
    rewrite Hvalue. eexists. split; [done|].
    unfold Client.tableErrors.
    eapply elem_of_concat_imap; [exact Hrow|].
    eapply elem_of_concat_fmap; [exact Hcol|].
    unfold Client.cellErrors. rewrite Hcell, Hopts.
    rewrite !elem_of_app. do 4 right.
    unfold JS.truthyString.
    rewrite (bool_decide_eq_false_2 (cell = "")) by done.
    rewrite (bool_decide_eq_false_2 (cell ∈ opts)) by done.
    simpl. apply list_elem_of_singleton.
    unfold msg, Client.cellPrefix. by rewrite !string_app_assoc. }
  split; [exact Hpass|]. split; [|exact Hserver].
  intros errs Herrs.
  destruct (Hpass (Client.jumpTarget (fields form) values)) as (l & Hl & Hmsg).
  exact (validateFields_elem _ _ _ _ _ _ _ _ Herrs Hfield Hl Hmsg).
Qed.

Lemma cell_membership_any_type_witness :
  col_type Scenario.note = ColText
  ∧ Client.validateFormResponse {["N" := VRows [{["n" := "C"]}]]}
      (mkFormSchema None "form" [Table Scenario.notes]) ["N"]
    = Some ["Note in Notes row 1 value is not valid."]
  ∧ "Note in Notes row 1 value is not valid."
    ∈ ["Note in Notes row 1 value is not valid."].
Proof.
  split; [reflexivity|]. split; [by vm_compute|].
  refine (proj1 (proj2 (cell_membership_any_type
                          {["N" := VRows [{["n" := "C"]}]]}
                          (mkFormSchema None "form" [Table Scenario.notes]) ["N"]
                          Scenario.notes [{["n" := "C"]}] 0 {["n" := "C"]}
                          Scenario.note "C" ["A"; "B"] _ _ _ _ _ _ _ _ _)) _ _);
    try reflexivity; try compute_done; apply list_elem_of_here.
Defined.

(** * When the rules of a table cell push a message *)

Section CellRules.
Implicit Types (col : TableColumn) (cell : option string).

Lemma pushIf_nonempty c msg : pushIf c msg ≠ [] ↔ c = true.
Proof. destruct c; simpl; split; congruence. Qed.

Lemma app_nonempty {A} (l1 l2 : list A) : l1 ++ l2 ≠ [] ↔ l1 ≠ [] ∨ l2 ≠ [].
Proof.
  destruct l1 as [|x l1]; simpl.
  - split; [by right | by intros [?|?]].
  - split; [by left | done].
Qed.

Lemma concat_imap_nonempty {A B} (f : nat → A → list B) (l : list A) :
  concat (imap f l) ≠ [] ↔ ∃ i x, l !! i = Some x ∧ f i x ≠ [].
Proof.
  revert f. induction l as [|y l IH]; intros f; simpl.
  - split; [done|]. by intros (i & x & ? & _).
  - rewrite app_nonempty, IH. split.
    + intros [Hy|(i & x & Hx & Hfx)]; [by exists 0%nat, y|].
      by exists (S i), x.
    + intros ([|i] & x & Hx & Hfx); simpl in Hx; [left; by simplify_eq|].
      right. by exists i, x.
Qed.

Lemma concat_fmap_nonempty {A B} (f : A → list B) (l : list A) :
  concat (f <$> l) ≠ [] ↔ ∃ x, x ∈ l ∧ f x ≠ [].
Proof.
  induction l as [|y l IH]; simpl.
  - split; [done|]. intros (x & Hx & _). by apply elem_of_nil in Hx.
  - rewrite app_nonempty, IH. split.
    + intros [Hy|(x & Hx & Hfx)]; [exists y | exists x]; split; try done.
      * apply list_elem_of_here.
      * by apply list_elem_of_further.
    + intros (x & [->|Hx]%elem_of_cons & Hfx); [by left|]. right. by exists x.
Qed.

Lemma blankCell_spec cell :
  negb (JS.truthyCell (JS.optTrimCell cell)) = true ↔ blankCell cell.
Proof.
  destruct cell as [s|]; simpl; [|done].
  unfold JS.truthyString. rewrite negb_involutive. apply bool_decide_eq_true.
Qed.

Lemma emptyCell_spec cell : negb (JS.truthyCell cell) = true ↔ emptyCell cell.
Proof.
  unfold emptyCell. destruct cell as [s|]; simpl.
  - unfold JS.truthyString. rewrite negb_involutive, bool_decide_eq_true.
    split; [intros ->; by right | by intros [?|[= ->]]].
  - split; [by left | done].
Qed.

Lemma tooShort_spec col cell (isText : bool) (msg : Z → string) :
  match col_validation col ≫= minLength with
  | Some n =>
      pushIf (isText && JS.truthyNumber (Some n) && JS.lt (JS.optLengthCell cell) n)
        (msg n)
  | None => []
  end ≠ [] ↔ isText = true ∧ tooShort col cell.
Proof.
  unfold tooShort. destruct (col_validation col ≫= minLength) as [n|].
  - rewrite pushIf_nonempty, !andb_true_iff. unfold JS.truthyNumber.
    rewrite negb_true_iff, Z.eqb_neq. split.
    + intros [[? ?] Hlt]. split; [done|].
      destruct cell as [s|]; simpl in Hlt; [|done].
      exists n, s. by rewrite <- Z.ltb_lt.
    + intros (? & n' & s & [= <-] & ? & -> & Hlt). simpl.
      by rewrite Z.ltb_lt.
  - split; [done|]. by intros (_ & n & s & ? & _).
Qed.

Lemma tooLong_spec col cell (isText : bool) (msg : Z → string) :
  match col_validation col ≫= maxLength with
  | Some n =>
      pushIf (isText && JS.truthyNumber (Some n) && JS.gt (JS.optLengthCell cell) n)
        (msg n)
  | None => []
  end ≠ [] ↔ isText = true ∧ tooLong col cell.
Proof.
  unfold tooLong. destruct (col_validation col ≫= maxLength) as [n|].
  - rewrite pushIf_nonempty, !andb_true_iff. unfold JS.truthyNumber.
    rewrite negb_true_iff, Z.eqb_neq. split.
    + intros [[? ?] Hgt]. split; [done|].
      destruct cell as [s|]; simpl in Hgt; [|done].
      exists n, s. rewrite Z.gtb_ltb, Z.ltb_lt in Hgt. done.
    + intros (? & n' & s & [= <-] & ? & -> & Hgt). simpl.
      by rewrite Z.gtb_ltb, Z.ltb_lt.
  - split; [done|]. by intros (_ & n & s & ? & _).
Qed.

Lemma notAnOption_spec col cell msg :
  match cell, col_options col with
  | Some s, Some opts =>
      pushIf (JS.truthyString s && negb (bool_decide (s ∈ opts))) msg
  | _, _ => []
  end ≠ [] ↔ notAnOption col cell.
Proof.
  unfold notAnOption. destruct cell as [s|], (col_options col) as [opts|].
  - rewrite pushIf_nonempty, andb_true_iff. unfold JS.truthyString.
    rewrite !negb_true_iff, !bool_decide_eq_false. split.
    + intros [? ?]. by exists s, opts.
    + by intros (s' & opts' & [= <-] & ? & [= <-] & ?).
  - split; [done|]. by intros (? & ? & _ & _ & ? & _).
  - split; [done|]. by intros (? & ? & ? & _).
  - split; [done|]. by intros (? & ? & ? & _).
Qed.

Lemma client_cellErrors_nonempty t colRequired rowIdx row col :
  Client.cellErrors t colRequired rowIdx row col ≠ []
  ↔ clientCellViolation colRequired col (row !! col_id col).
Proof.
  unfold Client.cellErrors, clientCellViolation.
  rewrite !app_nonempty, tooShort_spec, tooLong_spec, notAnOption_spec.
  rewrite !pushIf_nonempty, !andb_true_iff, !bool_decide_eq_true.
  by rewrite blankCell_spec, emptyCell_spec, !(assoc (∧)).
Qed.

Lemma truthyFlag_spec (b : option bool) : JS.truthyFlag b = true ↔ b = Some true.
Proof. destruct b as [[]|]; simpl; split; congruence. Qed.

Lemma server_cellErrors_nonempty t row col :
  Server.cellErrors t row col ≠ []
  ↔ serverCellViolation col (row !! col_id col).
Proof.
  unfold Server.cellErrors, serverCellViolation.
  rewrite !app_nonempty, notAnOption_spec.
  rewrite !pushIf_nonempty, !andb_true_iff, !bool_decide_eq_true.
  by rewrite blankCell_spec, emptyCell_spec, truthyFlag_spec, !(assoc (∧)).
Qed.

Lemma client_tableErrors_nonempty jt vis t rows :
  Client.tableErrors jt vis t rows ≠ []
  ↔ ∃ rowIdx row col,
      rows !! rowIdx = Some row ∧ col ∈ columns t
      ∧ clientCellViolation
          (Client.effectiveRequired jt vis (table_id t)
             (col_validation col ≫= required))
          col (row !! col_id col).
Proof.
  unfold Client.tableErrors. rewrite concat_imap_nonempty.
  split.
  - intros (i & row & Hrow & (col & Hcol & Hv)%concat_fmap_nonempty).
    exists i, row, col. by rewrite <- client_cellErrors_nonempty.
  - intros (i & row & col & Hrow & Hcol & Hv).
    exists i, row. split; [done|]. apply concat_fmap_nonempty.
    exists col. by rewrite client_cellErrors_nonempty.
Qed.

Lemma server_tableErrors_nonempty t rows :
  Server.tableErrors t rows ≠ []
  ↔ ∃ row col,
      row ∈ rows ∧ col ∈ columns t
      ∧ serverCellViolation col (row !! col_id col).
Proof.
  unfold Server.tableErrors. rewrite concat_fmap_nonempty.
  split.
  - intros (row & Hrow & (col & Hcol & Hv)%concat_fmap_nonempty).
    exists row, col. by rewrite <- server_cellErrors_nonempty.
  - intros (row & col & Hrow & Hcol & Hv).
    exists row. split; [done|]. apply concat_fmap_nonempty.
    exists col. by rewrite server_cellErrors_nonempty.
Qed.










End CellRules.




(** * Server-side validator against the client-side one *)

(** On a field that holds no rows the server pushes the missing-label
    message, if any, and then what the client pushes for the field when it
    is visible and nothing is suppressed. *)
Lemma server_fieldErrors_client vis values f :
  field_id f ∈ vis → ¬ holdsRows values f →
  Server.fieldErrors values f
  = errs ← Client.fieldErrors None vis values f;
    Some (Server.labelErrors f ++ errs).
Proof.
  intros Hvis Hrows. unfold Server.fieldErrors, Client.fieldErrors.
  visible_field.
  destruct f as [tf|d|tb]; simpl; try done.
  destruct (values !! table_id tb) as [[s|rows]|] eqn:Hvalue; try done.
  destruct Hrows. by exists tb, rows.
Qed.

Lemma labelErrors_labelled f :
  JS.truthyString (JS.trim (field_label f)) = true → Server.labelErrors f = [].
Proof. intros Hlabel. unfold Server.labelErrors. by rewrite Hlabel. Qed.

Section ServerView.
Implicit Types (fs : list FormField) (values : gmap string Value).

Lemma Forall2_concat_rows {A B} (R : A → B → Prop) (l1 : list (list A))
    (l2 : list (list B)) :
  Forall2 (Forall2 R) l1 l2 → Forall2 R (concat l1) (concat l2).
Proof. induction 1; simpl; [done|]. by apply Forall2_app. Qed.

Lemma Forall2_imap_fmap {A B C} (R : B → C → Prop) (f : nat → A → B)
    (g : A → C) (l : list A) :
  (∀ i x, l !! i = Some x → R (f i x) (g x)) →
  Forall2 R (imap f l) (g <$> l).
Proof.
  revert f. induction l as [|x l IH]; intros f Hall; simpl; [done|].
  constructor; [by apply (Hall 0%nat)|].
  apply IH. intros i y Hy. by apply (Hall (S i)).
Qed.

Lemma Forall2_pushIf (R : string → string → Prop) c client server :
  R client server → Forall2 R (pushIf c client) (pushIf c server).
Proof. intros HR. destruct c; simpl; by repeat constructor. Qed.

Lemma tooShort_none col cell (isText : bool) (msg : Z → string) :
  ¬ (isText = true ∧ tooShort col cell) →
  match col_validation col ≫= minLength with
  | Some n =>
      pushIf (isText && JS.truthyNumber (Some n) && JS.lt (JS.optLengthCell cell) n)
        (msg n)
  | None => []
  end = [].
Proof.
  intros Hnot. pose proof (tooShort_spec col cell isText msg) as Hspec.
  revert Hspec.
  destruct (match col_validation col ≫= minLength with
            | Some n => _
            | None => []
            end) as [|e l]; [done|].
  intros Hspec. destruct Hnot. by apply Hspec.
Qed.

Lemma tooLong_none col cell (isText : bool) (msg : Z → string) :
  ¬ (isText = true ∧ tooLong col cell) →
  match col_validation col ≫= maxLength with
  | Some n =>
      pushIf (isText && JS.truthyNumber (Some n) && JS.gt (JS.optLengthCell cell) n)
        (msg n)
  | None => []
  end = [].
Proof.
  intros Hnot. pose proof (tooLong_spec col cell isText msg) as Hspec.
  revert Hspec.
  destruct (match col_validation col ≫= maxLength with
            | Some n => _
            | None => []
            end) as [|e l]; [done|].
  intros Hspec. destruct Hnot. by apply Hspec.
Qed.

(** For a cell within the length bounds of its column, the server pushes
    the messages of the client's required and membership rules, without
    the row number. *)
Lemma server_cellErrors_client t rowIdx row col :
  col ∈ columns t →
  (col_type col = ColText →
   ¬ tooShort col (row !! col_id col) ∧ ¬ tooLong col (row !! col_id col)) →
  Forall2 (withoutRowNumber t)
    (Client.cellErrors t (JS.truthyFlag (col_validation col ≫= required))
       rowIdx row col)
    (Server.cellErrors t row col).
Proof.
  intros Hcol Hbounds.
  assert (∀ rule,
            withoutRowNumber t (Client.cellPrefix t rowIdx col +:+ rule)
              ((col_label col +:+ " in " +:+ table_label t) +:+ rule)) as Hrule.
  { intros rule. exists col, rowIdx, rule. split; [done|].
    unfold Client.cellPrefix. by rewrite !string_app_assoc. }
  unfold Client.cellErrors, Server.cellErrors.
  rewrite tooShort_none, tooLong_none; simpl app.
  - repeat apply Forall2_app; try by apply Forall2_pushIf.
    destruct (row !! col_id col), (col_options col); try done.
    by apply Forall2_pushIf.
  - rewrite bool_decide_eq_true. intros [Htext Hlong].
    by destruct (Hbounds Htext) as [_ ?].
  - rewrite bool_decide_eq_true. intros [Htext Hshort].
    by destruct (Hbounds Htext) as [? _].
Qed.

(** Field by field: the server pushes the missing-label message, if any,
    and then the messages of the client for the field, visible and with
    nothing suppressed; it throws when the client does. *)
Lemma server_field_view fs vis values f :
  f ∈ fs → field_id f ∈ vis → cellLengthsRespected values f →
  match Client.fieldErrors None vis values f with
  | Some clientErrs =>
      ∃ serverErrs,
        Server.fieldErrors values f = Some (Server.labelErrors f ++ serverErrs)
        ∧ Forall2 (sameButRowNumber fs) clientErrs serverErrs
        ∧ (¬ holdsRows values f → serverErrs = clientErrs)
  | None => Server.fieldErrors values f = None
  end.
Proof.
  intros Hf Hvis Hbounds.
  assert (holdsRows values f ∨ ¬ holdsRows values f)
    as [(t & rows & -> & Hrows)|Hnorows].
  { destruct f as [tf|d|t];
      try (right; intros (t' & rows & Hf' & _); discriminate Hf').
    destruct (values !! table_id t) as [[s|rows]|] eqn:Hvalue.
    - right. intros (t' & rows & [= <-] & Hrows). congruence.
    - left. by exists t, rows.
    - right. intros (t' & rows & [= <-] & Hrows). congruence. }
  - unfold Client.fieldErrors, Server.fieldErrors. visible_field.
    simpl. rewrite Hrows. simpl.
    exists (Server.tableErrors t rows). split; [done|]. split.
    + unfold Client.tableErrors, Server.tableErrors.
      apply Forall2_concat_rows, Forall2_imap_fmap. intros i row Hrow.
      apply Forall2_concat_rows, Forall2_fmap, Forall_Forall2_diag, Forall_forall.
      intros col Hcol. rewrite effectiveRequired_None.
      eapply Forall2_impl.
      * apply server_cellErrors_client; [done|]. intros Htext.
        apply (Hbounds t rows row col); try done.
        by apply list_elem_of_lookup_2 with i.
      * intros c e Hce. right. by exists t.
    + intros Hno. destruct Hno. by exists t, rows.
  - rewrite (server_fieldErrors_client vis values f Hvis Hnorows).
    destruct (Client.fieldErrors None vis values f) as [errs|]; simpl; [|done].
    exists errs. split; [done|]. split; [|done].
    apply Forall_Forall2_diag, Forall_forall. intros e _. by left.
Qed.

(** The whole lists, when every label is non-blank. *)
Lemma server_fields_view fs0 vis values fs :
  Forall (λ f, f ∈ fs0 ∧ field_id f ∈ vis ∧ cellLengthsRespected values f
               ∧ JS.truthyString (JS.trim (field_label f)) = true) fs →
  match Client.validateFields None vis values fs with
  | Some clientErrs =>
      ∃ serverErrs,
        (pushed ← mapM (Server.fieldErrors values) fs; Some (concat pushed))
        = Some serverErrs
        ∧ Forall2 (sameButRowNumber fs0) clientErrs serverErrs
  | None =>
      (pushed ← mapM (Server.fieldErrors values) fs; Some (concat pushed)) = None
  end.
Proof.
  induction 1 as [|f fs (Hf & Hvis & Hbounds & Hlabel) _ IH].
  - rewrite validateFields_nil. by exists [].
  - rewrite validateFields_cons. simpl.
    pose proof (server_field_view fs0 vis values f Hf Hvis Hbounds) as Hview.
    destruct (Client.fieldErrors None vis values f) as [errs|]; simpl.
    + destruct Hview as (serverErrs & -> & Hsame & _). simpl.
      rewrite (labelErrors_labelled f Hlabel). simpl.
      destruct (Client.validateFields None vis values fs) as [rest|]; simpl.
      * destruct IH as (serverRest & Hrest & Hsame').
        destruct (mapM (Server.fieldErrors values) fs) as [pushed|]; simpl in *;
          [|done].
        injection Hrest as <-. eexists. split; [done|]. by apply Forall2_app.
      * by destruct (mapM (Server.fieldErrors values) fs).
    + by rewrite Hview.
Qed.

End ServerView.

(** C6, as stated, fails: for a table that holds rows the server's
    messages carry no row number (and the server has no length rule for
    cells), so the two validators return different lists. *)
Lemma validateResponse_counterexample :
  Client.jumpTarget [Table Scenario.items] {["T" := VRows [∅]]} = None
  ∧ Client.validateFormResponse {["T" := VRows [∅]]}
      (mkFormSchema None "form" [Table Scenario.items]) ["T"]
    = Some ["Kind in Items row 1 is required."]
  ∧ Server.validateResponse (mkFormSchema None "form" [Table Scenario.items])
      {["T" := VRows [∅]]}
    = Some ["Kind in Items is required."].
Proof. repeat split; by vm_compute. Qed.

(** The server reports a blank label, which the client never does. *)
Example validateResponse_blank_label :
  Client.validateFormResponse ∅
    (mkFormSchema None "form" [Text (mkTextField "X" " " None)]) ["X"]
  = Some []
  ∧ Server.validateResponse
      (mkFormSchema None "form" [Text (mkTextField "X" " " None)]) ∅
    = Some ["Field label missing for X"].
Proof. split; by vm_compute. Qed.

(** C6, amended: for every form and value map in which no cell of a text
    column is shorter than the column's [minLength] or longer than its
    [maxLength], the server pushes for each field the missing-label message
    when the label is blank, followed by the messages of the client-side
    validator applied with every field id visible and no jump-target
    suppression, those of table cells without their row number, and it
    throws when the client does; for a field that holds no rows the
    messages are the client's own. When every label is non-blank the two
    validators return lists that correspond message by message, and the
    same list when no table holds rows, which is the result of
    [validateFormResponse] itself when no jump target is selected. *)
Theorem validateResponse_against_client form values :
  Forall (cellLengthsRespected values) (fields form) →
  (∀ f, f ∈ fields form →
     match Client.fieldErrors None (list_to_set (field_id <$> fields form))
             values f with
     | Some clientErrs =>
         ∃ serverErrs,
           Server.fieldErrors values f
           = Some (Server.labelErrors f ++ serverErrs)
           ∧ Forall2 (sameButRowNumber (fields form)) clientErrs serverErrs
           ∧ (¬ holdsRows values f → serverErrs = clientErrs)
     | None => Server.fieldErrors values f = None
     end)
  ∧ (Forall (λ f, JS.truthyString (JS.trim (field_label f)) = true) (fields form) →
     match Client.validateFields None (list_to_set (field_id <$> fields form))
             values (fields form) with
     | Some clientErrs =>
         ∃ serverErrs,
           Server.validateResponse form values = Some serverErrs
           ∧ Forall2 (sameButRowNumber (fields form)) clientErrs serverErrs
     | None => Server.validateResponse form values = None
     end
     ∧ (Forall (λ f, ¬ holdsRows values f) (fields form) →
        Server.validateResponse form values
        = Client.validateFields None (list_to_set (field_id <$> fields form))
            values (fields form)
        ∧ (Client.jumpTarget (fields form) values = None →
           Server.validateResponse form values
           = Client.validateFormResponse values form (field_id <$> fields form)))).
Proof.
  intros Hbounds.
  assert (∀ f, f ∈ fields form →
            field_id f ∈ (list_to_set (field_id <$> fields form) : gset string))
    as Hall.
  { intros f Hf. rewrite elem_of_list_to_set. apply list_elem_of_fmap. eauto. }
  rewrite Forall_forall in Hbounds.
  split.
  - intros f Hf. apply server_field_view; auto.
  - intros Hlabels. rewrite Forall_forall in Hlabels. split.
    + apply (server_fields_view (fields form)). apply Forall_forall.
      intros f Hf. auto.
    + intros Hrows. rewrite Forall_forall in Hrows.
      assert (Server.validateResponse form values
              = Client.validateFields None
                  (list_to_set (field_id <$> fields form)) values (fields form))
        as Heq.
      { unfold Server.validateResponse, Client.validateFields. f_equal.
        apply Forall_mapM_ext, Forall_forall. intros f Hf.
        rewrite (server_fieldErrors_client _ values f (Hall f Hf) (Hrows f Hf)).
        rewrite labelErrors_labelled by auto.
        by destruct (Client.fieldErrors _ _ _ _). }
      split; [exact Heq|].
      intros Hjt. rewrite Heq. unfold Client.validateFormResponse. by rewrite Hjt.
Qed.

Lemma validateResponse_against_client_witness :
  Forall (cellLengthsRespected {["T" := VRows [∅]; "Q2" := VString "x"]})
    [Scenario.Q1; Scenario.Q2; Table Scenario.items]
  ∧ Client.validateFields None (list_to_set ["Q1"; "Q2"; "T"])
      {["T" := VRows [∅]; "Q2" := VString "x"]}
      [Scenario.Q1; Scenario.Q2; Table Scenario.items]
    = Some ["Q1 is required."; "Kind in Items row 1 is required."]
  ∧ Server.validateResponse
      (mkFormSchema None "form" [Scenario.Q1; Scenario.Q2; Table Scenario.items])
      {["T" := VRows [∅]; "Q2" := VString "x"]}
    = Some ["Q1 is required."; "Kind in Items is required."]
  ∧ Forall2 (sameButRowNumber [Scenario.Q1; Scenario.Q2; Table Scenario.items])
      ["Q1 is required."; "Kind in Items row 1 is required."]
      ["Q1 is required."; "Kind in Items is required."].
Proof.
  assert (Forall (cellLengthsRespected {["T" := VRows [∅]; "Q2" := VString "x"]})
            [Scenario.Q1; Scenario.Q2; Table Scenario.items]) as H.
  { repeat first [apply Forall_nil_2 | apply Forall_cons_2];
      intros t rows row col Hf _ _ Hcol Htext; try discriminate Hf.
    injection Hf as <-. simpl in Hcol.
    apply list_elem_of_singleton in Hcol as ->. discriminate Htext. }
  assert (Client.validateFields None (list_to_set ["Q1"; "Q2"; "T"])
            {["T" := VRows [∅]; "Q2" := VString "x"]}
            [Scenario.Q1; Scenario.Q2; Table Scenario.items]
          = Some ["Q1 is required."; "Kind in Items row 1 is required."])
    as Hclient by (by vm_compute).
  assert (Server.validateResponse
            (mkFormSchema None "form"
               [Scenario.Q1; Scenario.Q2; Table Scenario.items])
            {["T" := VRows [∅]; "Q2" := VString "x"]}
          = Some ["Q1 is required."; "Kind in Items is required."])
    as Hserver by (by vm_compute).
  split; [exact H|]. split; [exact Hclient|]. split; [exact Hserver|].
  pose proof (proj1 (proj2 (validateResponse_against_client
                              (mkFormSchema None "form"
                                 [Scenario.Q1; Scenario.Q2; Table Scenario.items])
                              {["T" := VRows [∅]; "Q2" := VString "x"]} H)
                       ltac:(by repeat constructor))) as Hview.
  destruct Hview as (serverErrs & Hs & Hsame).
  rewrite Hserver in Hs. injection Hs as <-. exact Hsame.
Defined.

(** * Further properties *)

(** Either no field carries a condition, or the list splits at the first
    dropdown that does: [findJumpDropdown_none] and
    [getVisibleFieldIds_branch] together cover every field list. *)
Lemma first_condition_split (fs : list FormField) :
  Forall (λ f, conditionOf f = None) fs
  ∨ ∃ pre f c post,
      fs = pre ++ f :: post
      ∧ Forall (λ g, conditionOf g = None) pre
      ∧ conditionOf f = Some c.
Proof.
  induction fs as [|f fs IH]; [by left|].
  destruct (conditionOf f) as [c|] eqn:Hf.
  - right. by exists [], f, c, fs.
  - destruct IH as [Hnone|(pre & g & c & post & -> & Hpre & Hg)].
    + left. by constructor.
    + right. exists (f :: pre), g, c, post. split; [done|].
      split; [by constructor | done].
Qed.

(** The validator's preprocessing loop finds the jump target the resolver
    finds. *)
Lemma jumpTarget_findJumpDropdown i (fs : list FormField) values :
  Client.jumpTarget fs values = (findJumpDropdown i fs values).2.
Proof.
  revert i. induction fs as [|f fs IH]; intros i; simpl; [done|].
  by destruct (conditionOf f).
Qed.

(** X1: the selected jump target is always part of the resolver's result,
    so on that result the validator's suppression of the required rule is
    in force. *)
Theorem resolve_shows_target (fs : list FormField) values t :
  Client.jumpTarget fs values = Some t →
  t ∈ getVisibleFieldIds fs values.
Proof.
  intros Hjt.
  destruct (first_condition_split fs) as [Hnone|(pre & f & c & post & -> & Hpre & Hf)].
  - rewrite (jumpTarget_findJumpDropdown 0),
      (findJumpDropdown_none 0 fs values Hnone) in Hjt. done.
  - rewrite (jumpTarget_findJumpDropdown 0),
      (findJumpDropdown_first 0 pre f c post values Hpre Hf) in Hjt.
    simpl in Hjt.
    rewrite (getVisibleFieldIds_branch pre f c post values Hpre Hf), Hjt.
    apply list_elem_of_further, list_elem_of_here.
Qed.

Lemma resolve_shows_target_witness :
  Client.jumpTarget Scenario.backward {["B" := VString "Yes"]} = Some "Q1"
  ∧ ("Q1" ∈ getVisibleFieldIds Scenario.backward {["B" := VString "Yes"]}).
Proof.
  assert (Client.jumpTarget Scenario.backward {["B" := VString "Yes"]}
          = Some "Q1") as H by (by vm_compute).
  split; [exact H|].
  exact (resolve_shows_target Scenario.backward {["B" := VString "Yes"]} "Q1" H).
Defined.



(** A visible required text field that holds an array makes the validator
    throw. *)
Example validate_throws :
  Client.validateFormResponse {["Q1" := VRows []]}
    (mkFormSchema None "form" [Scenario.Q1]) ["Q1"]
  = None.
Proof. by vm_compute. Qed.

(** Scenario A of the specification, end to end: the resolver shows [D] and
    [Q2]; the validator accepts when [Q2] has a value and otherwise
    reports [Q2] only, the required rule of the hidden [Q1] being ignored. *)
Theorem scenario_A :
  getVisibleFieldIds Scenario.branching {["D" := VString "Yes"]} = ["D"; "Q2"]
  ∧ Client.validateFormResponse {["D" := VString "Yes"]}
      (mkFormSchema None "form" Scenario.branching)
      (getVisibleFieldIds Scenario.branching {["D" := VString "Yes"]})
    = Some ["Q2 is required."]
  ∧ Client.validateFormResponse {["D" := VString "Yes"; "Q2" := VString "answer"]}
      (mkFormSchema None "form" Scenario.branching)
      (getVisibleFieldIds Scenario.branching
         {["D" := VString "Yes"; "Q2" := VString "answer"]})
    = Some [].
Proof. repeat split; by vm_compute. Qed.

(** Scenario C of the specification: a visible text field with
    [minLength: 3] holding "ab". *)
Theorem scenario_C (id label : string) (req : option bool) (mx : option Z)
    (formId : option string) (formTitle : string) :
  Client.validateFormResponse {[id := VString "ab"]}
    (mkFormSchema formId formTitle
       [Text (mkTextField id label (Some (mkValidation req (Some 3) mx)))])
    [id]
  = Some ([label +:+ " must be at least 3 characters."]
          ++ match mx with
             | Some n => pushIf (JS.truthyNumber (Some n) && (2 >? n))
                           (label +:+ " must be at most " +:+ pretty n
                            +:+ " characters.")
             | None => []
             end).
Proof.
  unfold Client.validateFormResponse, Client.validateFields. simpl.
  unfold Client.fieldErrors. simpl.
  rewrite bool_decide_eq_true_2 by set_solver.
  rewrite lookup_singleton_eq. unfold Client.textErrors. simpl.
  destruct (Client.effectiveRequired None _ id req); simpl;
    by rewrite app_nil_r.
Qed.

(** * The resolver: what it shows and what it never shows *)

Section ResolverShape.
Implicit Types (fs pre post : list FormField) (values : gmap string Value).

Lemma jumpDropdownId_none fs :
  Forall (λ f, conditionOf f = None) fs → jumpDropdownId fs = None.
Proof. induction 1 as [|f fs Hf _ IH]; simpl; [done|]. by rewrite Hf. Qed.

Lemma jumpDropdownId_first pre f c post :
  Forall (λ g, conditionOf g = None) pre → conditionOf f = Some c →
  jumpDropdownId (pre ++ f :: post) = Some (field_id f).
Proof.
  intros Hpre Hf. induction Hpre as [|g pre Hg _ IH]; simpl.
  - by rewrite Hf.
  - by rewrite Hg.
Qed.

Lemma jumpTarget_first pre f c post values :
  Forall (λ g, conditionOf g = None) pre → conditionOf f = Some c →
  Client.jumpTarget (pre ++ f :: post) values
  = selectedTarget c (values !! field_id f).
Proof.
  intros Hpre Hf.
  by rewrite (jumpTarget_findJumpDropdown 0),
    (findJumpDropdown_first 0 pre f c post values Hpre Hf).
Qed.

Lemma jumpTarget_none fs values :
  Forall (λ f, conditionOf f = None) fs → Client.jumpTarget fs values = None.
Proof.
  intros Hfs.
  by rewrite (jumpTarget_findJumpDropdown 0), (findJumpDropdown_none 0 fs values Hfs).
Qed.

(** The selected target is a truthy value of the branching dropdown's
    condition map. *)
Lemma jumpTarget_possible fs values t :
  Client.jumpTarget fs values = Some t → t ∈ possibleJumpTargets fs.
Proof.
  destruct (first_condition_split fs) as [Hnone|(pre & f & c & post & -> & Hpre & Hf)].
  - by rewrite jumpTarget_none.
  - rewrite (jumpTarget_first pre f c post values Hpre Hf).
    intros Ht. apply selectedTarget_possible in Ht.
    rewrite possibleJumpTargets_app. simpl. rewrite Hf.
    apply elem_of_union_r, elem_of_union_l, Ht.
Qed.

(** Every id of the result is the branching dropdown's, the selected
    target, or no possible jump target. *)
Lemma visible_cases fs values x :
  x ∈ getVisibleFieldIds fs values →
  Some x = jumpDropdownId fs
  ∨ Some x = Client.jumpTarget fs values
  ∨ x ∉ possibleJumpTargets fs.
Proof.
  destruct (first_condition_split fs) as [Hnone|(pre & f & c & post & -> & Hpre & Hf)].
  - intros _. right. right. rewrite possibleJumpTargets_none by done. set_solver.
  - rewrite (getVisibleFieldIds_branch pre f c post values Hpre Hf).
    rewrite (jumpDropdownId_first pre f c post Hpre Hf).
    rewrite (jumpTarget_first pre f c post values Hpre Hf).
    intros [->|Hx]%elem_of_cons; [by left|].
    apply elem_of_app in Hx as [Hx|Hx].
    + destruct (selectedTarget c (values !! field_id f)) as [t|];
        [|by apply elem_of_nil in Hx].
      apply list_elem_of_singleton in Hx as ->. right. by left.
    + apply list_elem_of_fmap in Hx as (g & -> & Hg).
      apply list_elem_of_filter in Hg as [[Hg|Hg] _]; right; [by right | by left].
Qed.

End ResolverShape.

(** X3: the resolver depends on the values only through the value of the
    branching dropdown: storing a value under any other id (typing in a
    text field, choosing in another dropdown, editing a table) leaves the
    visible list unchanged. *)
Theorem resolve_frame (fs : list FormField) (values : gmap string Value)
    (id : string) (v : Value) :
  jumpDropdownId fs ≠ Some id →
  getVisibleFieldIds fs (Preview.handleChange values id v)
  = getVisibleFieldIds fs values.
Proof.
  intros Hid. unfold Preview.handleChange.
  destruct (first_condition_split fs) as [Hnone|(pre & f & c & post & -> & Hpre & Hf)].
  - unfold getVisibleFieldIds. by rewrite !(findJumpDropdown_none 0 fs _ Hnone).
  - rewrite (jumpDropdownId_first pre f c post Hpre Hf) in Hid.
    rewrite !(getVisibleFieldIds_branch pre f c post _ Hpre Hf).
    rewrite lookup_insert_ne by congruence. done.
Qed.

Lemma resolve_frame_witness :
  jumpDropdownId Scenario.branching ≠ Some "Q2"
  ∧ getVisibleFieldIds Scenario.branching
      (Preview.handleChange {["D" := VString "Yes"]} "Q2" (VString "answer"))
    = ["D"; "Q2"].
Proof.
  assert (jumpDropdownId Scenario.branching ≠ Some "Q2") as H by (by vm_compute).
  split; [exact H|].
  etrans;
    [exact (resolve_frame Scenario.branching {["D" := VString "Yes"]} "Q2"
              (VString "answer") H)
    | by vm_compute].
Defined.

(** X4: the resolver never returns a possible jump target other than the
    selected one, the branching dropdown's own id apart; hence an id that
    is a target only in the condition map of a later dropdown is returned
    for no value map. *)
Theorem resolve_hides_unselected_targets (fs : list FormField)
    (values : gmap string Value) :
  (∀ x, x ∈ getVisibleFieldIds fs values → x ∈ possibleJumpTargets fs →
        Some x = jumpDropdownId fs ∨ Some x = Client.jumpTarget fs values)
  ∧ (∀ pre f c post t,
       fs = pre ++ f :: post →
       Forall (λ g, conditionOf g = None) pre →
       conditionOf f = Some c →
       t ∈ possibleJumpTargets fs → t ∉ conditionTargets c → t ≠ field_id f →
       t ∉ getVisibleFieldIds fs values).
Proof.
  split.
  - intros x Hx Htarget.
    destruct (visible_cases fs values x Hx) as [?|[?|?]]; auto. done.
  - intros pre f c post t -> Hpre Hf Htarget Hnot Hne Hvisible.
    destruct (visible_cases _ values t Hvisible) as [Hd|[Hj|Hn]]; [| |done].
    + rewrite (jumpDropdownId_first pre f c post Hpre Hf) in Hd. congruence.
    + rewrite (jumpTarget_first pre f c post values Hpre Hf) in Hj.
      symmetry in Hj. by apply selectedTarget_possible in Hj.
Qed.

Lemma resolve_hides_unselected_targets_witness :
  ("Q2" ∈ getVisibleFieldIds Scenario.branching {["D" := VString "Yes"]})
  ∧ ("Q2" ∈ possibleJumpTargets Scenario.branching)
  ∧ (Some "Q2" = jumpDropdownId Scenario.branching
     ∨ Some "Q2" = Client.jumpTarget Scenario.branching {["D" := VString "Yes"]}).
Proof.
  assert ("Q2" ∈ getVisibleFieldIds Scenario.branching {["D" := VString "Yes"]})
    as H1 by (vm_compute; set_solver).
  assert ("Q2" ∈ possibleJumpTargets Scenario.branching) as H2 by compute_done.
  split; [exact H1|]. split; [exact H2|].
  exact (proj1 (resolve_hides_unselected_targets Scenario.branching
                  {["D" := VString "Yes"]}) "Q2" H1 H2).
Defined.

(** X5: when the selected target is the id of no field (its field was
    deleted, say), [findIndex] yields [-1] and the scan starts at index 0:
    the resolver returns the branching dropdown's id, the target id, which
    names no field, and then every field of the whole list that is no
    possible jump target, the fields before the dropdown and the dropdown
    itself included. *)
Theorem resolve_dangling_target (pre : list FormField) (f : FormField)
    (c : gmap string string) (post : list FormField)
    (values : gmap string Value) (t : string) :
  Forall (λ g, conditionOf g = None) pre →
  conditionOf f = Some c →
  selectedTarget c (values !! field_id f) = Some t →
  Forall (λ g, field_id g ≠ t) (pre ++ f :: post) →
  getVisibleFieldIds (pre ++ f :: post) values
  = field_id f :: t
    :: (field_id <$>
          filter (λ g, field_id g ∉ possibleJumpTargets (pre ++ f :: post))
            (pre ++ f :: post)).
Proof.
  intros Hpre Hf Hsel Habsent.
  rewrite (getVisibleFieldIds_branch pre f c post values Hpre Hf), Hsel.
  simpl app. do 2 f_equal.
  unfold afterIdx, JS.findIndex.
  rewrite findIndexFrom_absent.
  - simpl drop. by rewrite filter_shownAfter_Some.
  - eapply Forall_impl; [exact Habsent|].
    intros g Hg. by apply bool_decide_eq_false.
Qed.

Lemma resolve_dangling_target_witness :
  Forall (λ g, field_id g ≠ "Q2") ([Scenario.Q0] ++ Dropdown Scenario.D :: [Scenario.Q1])
  ∧ getVisibleFieldIds ([Scenario.Q0] ++ Dropdown Scenario.D :: [Scenario.Q1])
      {["D" := VString "Yes"]}
    = ["D"; "Q2"; "Q0"; "D"; "Q1"].
Proof.
  assert (Forall (λ g, field_id g ≠ "Q2")
            ([Scenario.Q0] ++ Dropdown Scenario.D :: [Scenario.Q1])) as H
    by (by repeat constructor).
  split; [exact H|].
  etrans;
    [apply (resolve_dangling_target [Scenario.Q0] (Dropdown Scenario.D)
              {["Yes" := "Q2"]} [Scenario.Q1] {["D" := VString "Yes"]} "Q2");
     [by repeat constructor | reflexivity | by vm_compute | exact H]
    | by vm_compute].
Defined.

(** The ids returned after the branching dropdown's are ids of fields
    placed after it, when nothing is selected or the target is one of
    them. *)
Lemma visible_after_branch (pre : list FormField) f c post
    (values : gmap string Value) x :
  NoDup (field_id <$> pre ++ f :: post) →
  Forall (λ g, conditionOf g = None) pre →
  conditionOf f = Some c →
  (∀ t, selectedTarget c (values !! field_id f) = Some t → t ∈ field_id <$> post) →
  x ∈ getVisibleFieldIds (pre ++ f :: post) values →
  x ∈ field_id <$> f :: post.
Proof.
  intros Hnodup Hpre Hf Hsel.
  rewrite (getVisibleFieldIds_branch pre f c post values Hpre Hf).
  intros [->|Hx]%elem_of_cons; [by left|].
  right. apply elem_of_app in Hx as [Hx|Hx].
  - destruct (selectedTarget c (values !! field_id f)) as [t|] eqn:Ht;
      [|by apply elem_of_nil in Hx].
    apply list_elem_of_singleton in Hx as ->. by apply Hsel.
  - apply list_elem_of_fmap in Hx as (g & -> & Hg).
    apply list_elem_of_filter in Hg as [_ Hg].
    apply list_elem_of_fmap. exists g. split; [done|].
    destruct (selectedTarget c (values !! field_id f)) as [t|] eqn:Ht.
    + pose proof (Hsel t eq_refl) as Htarget.
      apply list_elem_of_fmap in Htarget as (tf & -> & Htf).
      apply list_elem_of_split in Htf as (mid & post' & ->).
      assert (pre ++ f :: mid ++ tf :: post'
              = (pre ++ f :: mid) ++ tf :: post') as Hsplit
        by (by rewrite <- app_assoc).
      rewrite Hsplit in Hnodup, Hg.
      destruct (NoDup_field_id_split _ _ _ Hnodup) as [Hbefore _].
      unfold afterIdx, JS.findIndex in Hg.
      rewrite (findIndexFrom_first _ 0 (pre ++ f :: mid) tf post') in Hg.
      * replace (Z.to_nat (0 + Z.of_nat (length (pre ++ f :: mid)) + 1))
          with (length (pre ++ f :: mid) + 1)%nat in Hg by lia.
        rewrite <- drop_drop, drop_app_length in Hg. simpl in Hg.
        apply elem_of_app. right. by apply list_elem_of_further.
      * eapply Forall_impl; [exact Hbefore|].
        intros h Hh. by apply bool_decide_eq_false.
      * by apply bool_decide_eq_true.
    + unfold afterIdx in Hg.
      replace (Z.to_nat (Z.of_nat (length pre) + 1))
        with (length pre + 1)%nat in Hg by lia.
      rewrite <- drop_drop, drop_app_length in Hg. by simpl in Hg.
Qed.

(** X6: a field placed before the branching dropdown is never shown, as
    long as nothing is selected or the selected target is a field placed
    after the dropdown (field ids being unique). *)
Theorem resolve_hides_fields_before_branch (pre : list FormField) (f : FormField)
    (c : gmap string string) (post : list FormField)
    (values : gmap string Value) (g : FormField) :
  NoDup (field_id <$> pre ++ f :: post) →
  Forall (λ h, conditionOf h = None) pre →
  conditionOf f = Some c →
  (∀ t, selectedTarget c (values !! field_id f) = Some t → t ∈ field_id <$> post) →
  g ∈ pre →
  field_id g ∉ getVisibleFieldIds (pre ++ f :: post) values.
Proof.
  intros Hnodup Hpre Hf Hsel Hg Hvisible.
  apply (visible_after_branch pre f c post values _ Hnodup Hpre Hf Hsel) in Hvisible.
  rewrite fmap_app in Hnodup.
  apply NoDup_app in Hnodup as (_ & Hdisjoint & _).
  apply (Hdisjoint (field_id g)); [|done].
  apply list_elem_of_fmap. eauto.
Qed.

Lemma resolve_hides_fields_before_branch_witness :
  NoDup (field_id <$> [Scenario.Q0] ++ Dropdown Scenario.E :: [Scenario.Q1])
  ∧ (Scenario.Q0 ∈ [Scenario.Q0])
  ∧ (field_id Scenario.Q0
     ∉ getVisibleFieldIds ([Scenario.Q0] ++ Dropdown Scenario.E :: [Scenario.Q1]) ∅).
Proof.
  assert (NoDup (field_id <$> [Scenario.Q0] ++ Dropdown Scenario.E :: [Scenario.Q1]))
    as H1 by compute_done.
  assert (Scenario.Q0 ∈ [Scenario.Q0]) as H2 by (apply list_elem_of_here).
  split; [exact H1|]. split; [exact H2|].
  apply (resolve_hides_fields_before_branch [Scenario.Q0] (Dropdown Scenario.E) ∅
           [Scenario.Q1] ∅ Scenario.Q0 H1); try done.
  by repeat constructor.
Defined.

(** * Validation after resolution, and what can never be submitted *)

Section Accumulation.
Context {A B : Type} (g : A → option (list B)).

(** What one element pushes is part of the accumulated list. *)
Lemma mapM_concat_elem (l : list A) (errs : list B) x k e :
  (pushed ← mapM g l; Some (concat pushed)) = Some errs →
  x ∈ l → g x = Some k → e ∈ k → e ∈ errs.
Proof.
  intros Herrs Hx Hk He. revert errs Herrs.
  induction Hx as [x l|x y l _ IH]; intros errs; simpl.
  - rewrite Hk. simpl. destruct (mapM g l); simpl; [|done].
    intros [= <-]. apply elem_of_app. by left.
  - destruct (g y); simpl; [|done].
    destruct (mapM g l) as [pushed|] eqn:Hl; simpl; [|done].
    intros [= <-]. apply elem_of_app. right. by apply IH.
Qed.

(** If one element throws or pushes a message, the result is not the
    empty list. *)
Lemma mapM_concat_nonempty (l : list A) x :
  x ∈ l → g x ≠ Some [] →
  (pushed ← mapM g l; Some (concat pushed)) ≠ Some [].
Proof.
  intros Hx Hgx Hnil.
  destruct (g x) as [[|e k]|] eqn:Hk; [done| |].
  - pose proof (mapM_concat_elem l [] x (e :: k) e Hnil Hx Hk
                  (list_elem_of_here _ _)) as He.
    by apply elem_of_nil in He.
  - destruct (mapM g l) as [pushed|] eqn:Hl; [|done].
    apply mapM_Some_1 in Hl.
    apply list_elem_of_lookup in Hx as [i Hi].
    destruct (Forall2_lookup_l _ _ _ _ _ Hl Hi) as (k & _ & Hk').
    congruence.
Qed.

End Accumulation.

Section Submission.
Implicit Types (values data : gmap string Value) (t : TextField).

(** The selected target is shown by the resolver. *)
Lemma jumpTarget_shown (fs : list FormField) values target :
  Client.jumpTarget fs values = Some target →
  target ∈ getVisibleFieldIds fs values.
Proof.
  intros Hjt.
  destruct (first_condition_split fs) as [Hnone|(pre & f & c & post & -> & Hpre & Hf)].
  - by rewrite jumpTarget_none in Hjt.
  - rewrite (jumpTarget_first pre f c post values Hpre Hf) in Hjt.
    rewrite (getVisibleFieldIds_branch pre f c post values Hpre Hf), Hjt.
    apply list_elem_of_further, list_elem_of_here.
Qed.

(** A required text field that is blank, or absent, gets the message of
    the required rule from the server. *)
Lemma server_textErrors_required t value errs :
  text_validation t ≫= required = Some true →
  (value = None ∨ ∃ s, value = Some (VString s) ∧ JS.trim s = "") →
  Server.textErrors t value = Some errs →
  text_label t +:+ " is required." ∈ errs.
Proof.
  intros Hreq Hblank. unfold Server.textErrors. rewrite Hreq. simpl.
  destruct Hblank as [->|(s & -> & Hs)]; simpl; rewrite ?Hs; simpl;
    intros [= <-]; apply list_elem_of_here.
Qed.

(** Bounds that no string satisfies: with [0 < max < min] a required text
    field always gets a message, or the rule throws. *)
Lemma textErrors_unsatisfiable t (req : bool) (a b : Z) value :
  text_validation t ≫= minLength = Some a →
  text_validation t ≫= maxLength = Some b →
  0 < b < a → req = true →
  Client.textErrors t req value ≠ Some [].
Proof.
  intros Hmin Hmax Hab ->. unfold Client.textErrors. rewrite Hmin, Hmax.
  destruct value as [[s|rows]|]; simpl; [|done|done].
  destruct (JS.truthyString (JS.trim s)); simpl; [|done].
  unfold JS.truthyNumber.
  replace (a =? 0) with false by (symmetry; apply Z.eqb_neq; lia).
  replace (b =? 0) with false by (symmetry; apply Z.eqb_neq; lia).
  simpl.
  destruct (Z.of_nat (String.length s) <? a) eqn:Hlt; simpl; [done|].
  apply Z.ltb_ge in Hlt.
  replace (Z.of_nat (String.length s) >? b) with true; [done|].
  symmetry. rewrite Z.gtb_ltb. apply Z.ltb_lt. lia.
Qed.

Lemma server_textErrors_client t value :
  Server.textErrors t value
  = Client.textErrors t (JS.truthyFlag (text_validation t ≫= required)) value.
Proof. done. Qed.

Lemma server_fieldErrors_nonempty data f :
  (∀ rest, match f with
           | Text t => Server.textErrors t (data !! field_id f)
           | Dropdown d => Some (Server.dropdownErrors d (data !! field_id f))
           | Table t =>
               match data !! field_id f with
               | Some (VRows rows) => Some (Server.tableErrors t rows)
               | _ => Some []
               end
           end = Some rest → rest ≠ []) →
  Server.fieldErrors data f ≠ Some [].
Proof.
  intros Hrest. unfold Server.fieldErrors.
  destruct (match f with Text _ => _ | _ => _ end) as [rest|] eqn:Hrules;
    simpl; [|done].
  intros [= Hnil]. apply app_eq_nil in Hnil as [_ ->]. by apply (Hrest []).
Qed.

End Submission.

(** X7: validation of the resolver's own output. When a jump target is
    selected, [validate] applied to the list [getVisibleFieldIds] returns
    is the validation, with nothing suppressed, of the form in which only
    the target's field keeps its required rule; when none is selected,
    nothing is suppressed. *)
Theorem validate_after_resolve (form : FormSchema) (values : gmap string Value) :
  Client.validateFormResponse values form (getVisibleFieldIds (fields form) values)
  = Client.validateFields None
      (list_to_set (getVisibleFieldIds (fields form) values)) values
      (match Client.jumpTarget (fields form) values with
       | Some target => requiredOnlyFor target <$> fields form
       | None => fields form
       end).
Proof.
  unfold Client.validateFormResponse.
  destruct (Client.jumpTarget (fields form) values) as [target|] eqn:Hjt; [|done].
  apply validateFields_requiredOnlyFor.
  rewrite elem_of_list_to_set. by apply jumpTarget_shown.
Qed.

Section Endpoints.
Implicit Types (db : Api.Database) (data : gmap string Value).

(** A response that the server-side validator does not accept leaves the
    database as it was. *)
Lemma postResponse_rejected db id form data :
  Api.forms db !! id = Some form →
  Server.validateResponse form data ≠ Some [] →
  (Api.postResponse db id data).2 = db
  ∧ (Api.status (Api.postResponse db id data).1 = 400
     ∨ Api.status (Api.postResponse db id data).1 = 500).
Proof.
  intros Hform Hrejected. unfold Api.postResponse. rewrite Hform.
  destruct (Server.validateResponse form data) as [[|e errs]|]; simpl; auto.
  done.
Qed.

End Endpoints.

(** X8: bounds that contradict each other are never noticed by the editor
    and make the form impossible to submit. For a required text field with
    [0 < maxLength < minLength], the server-side validator accepts no
    response at all, so no response to the form is ever stored; the
    client-side validator rejects every value map in which the field is
    visible and no jump target is selected; and the editor's check of the
    field looks at its label only. *)
Theorem contradictory_bounds_never_pass (form : FormSchema) (t : TextField)
    (a b : Z) :
  Text t ∈ fields form →
  text_validation t ≫= required = Some true →
  text_validation t ≫= minLength = Some a →
  text_validation t ≫= maxLength = Some b →
  0 < b < a →
  (∀ data, Server.validateResponse form data ≠ Some [])
  ∧ (∀ db id data, Api.forms db !! id = Some form →
                   (Api.postResponse db id data).2 = db)
  ∧ (∀ values (visibleFieldIds : list string),
       text_id t ∈ visibleFieldIds →
       Client.jumpTarget (fields form) values = None →
       Client.validateFormResponse values form visibleFieldIds ≠ Some [])
  ∧ ∀ idx, Editor.fieldErrors idx (Text t)
           = pushIf (Editor.blank (text_label t))
               ("Field " +:+ pretty (idx + 1)%nat +:+ " label cannot be empty.").
Proof.
  intros Hfield Hreq Hmin Hmax Hab.
  assert (∀ data, Server.validateResponse form data ≠ Some []) as Hserver.
  { intros data. unfold Server.validateResponse.
    apply (mapM_concat_nonempty _ _ (Text t) Hfield).
    apply server_fieldErrors_nonempty. intros rest Hrest ->.
    rewrite server_textErrors_client, Hreq in Hrest.
    by apply (textErrors_unsatisfiable t true a b _ Hmin Hmax Hab eq_refl) in Hrest. }
  split; [exact Hserver|]. split; [|split].
  - intros db id data Hform.
    by apply (postResponse_rejected db id form data Hform (Hserver data)).
  - intros values vis Hvisible Hjt.
    unfold Client.validateFormResponse, Client.validateFields. rewrite Hjt.
    apply (mapM_concat_nonempty _ _ (Text t) Hfield).
    unfold Client.fieldErrors. simpl. visible_field.
    rewrite effectiveRequired_None, Hreq.
    by apply (textErrors_unsatisfiable t true a b _ Hmin Hmax Hab).
  - intros idx. unfold Editor.fieldErrors. by rewrite app_nil_r.
Qed.

Lemma contradictory_bounds_never_pass_witness :
  (Text (mkTextField "P" "Pin" (Some (mkValidation (Some true) (Some 5) (Some 3))))
   ∈ fields (mkFormSchema None "form"
               [Text (mkTextField "P" "Pin"
                        (Some (mkValidation (Some true) (Some 5) (Some 3))))]))
  ∧ (0 < 3 < 5)
  ∧ Server.validateResponse
      (mkFormSchema None "form"
         [Text (mkTextField "P" "Pin"
                  (Some (mkValidation (Some true) (Some 5) (Some 3))))])
      {["P" := VString "1234"]}
    ≠ Some [].
Proof.
  assert (Text (mkTextField "P" "Pin" (Some (mkValidation (Some true) (Some 5) (Some 3))))
          ∈ fields (mkFormSchema None "form"
                      [Text (mkTextField "P" "Pin"
                               (Some (mkValidation (Some true) (Some 5) (Some 3))))]))
    as H1 by (apply list_elem_of_here).
  assert (0 < 3 < 5) as H2 by lia.
  split; [exact H1|]. split; [exact H2|].
  exact (proj1 (contradictory_bounds_never_pass _ _ 5 3 H1 eq_refl eq_refl eq_refl H2)
           {["P" := VString "1234"]}).
Defined.

(** X9: an optional text field with a minimum length. While its value is
    absent only the required rule can push a message, so the untouched
    field passes; once it holds a string shorter than the minimum, the
    empty string included (what the input stores when the text is erased),
    the message of the minimum length is pushed, required or not. *)
Theorem min_length_absent_or_short (t : TextField) (n : Z)
    (jumpTargetId : option string) (visibleFieldIds : list string)
    (values : gmap string Value) :
  text_id t ∈ visibleFieldIds →
  text_validation t ≫= minLength = Some n →
  0 < n →
  (values !! text_id t = None →
   Client.fieldErrors jumpTargetId (list_to_set visibleFieldIds) values (Text t)
   = Some (pushIf (Client.effectiveRequired jumpTargetId
                     (list_to_set visibleFieldIds) (text_id t)
                     (text_validation t ≫= required))
             (text_label t +:+ " is required.")))
  ∧ (∀ s, values !! text_id t = Some (VString s) →
          Z.of_nat (String.length s) < n →
          ∃ errs,
            Client.fieldErrors jumpTargetId (list_to_set visibleFieldIds)
              values (Text t) = Some errs
            ∧ text_label t +:+ " must be at least " +:+ pretty n +:+ " characters."
              ∈ errs).
Proof.
  intros Hvisible Hmin Hn. split.
  - intros Habsent. unfold Client.fieldErrors. simpl. visible_field.
    rewrite Habsent. unfold Client.textErrors. rewrite Hmin. simpl.
    destruct (text_validation t ≫= maxLength);
      destruct (Client.effectiveRequired _ _ _ _); simpl;
      by rewrite ?andb_false_r.
  - intros s Hs Hshort. unfold Client.fieldErrors. simpl. visible_field.
    rewrite Hs. unfold Client.textErrors. rewrite Hmin. simpl.
    unfold JS.truthyNumber.
    replace (n =? 0) with false by (symmetry; apply Z.eqb_neq; lia).
    replace (Z.of_nat (String.length s) <? n) with true
      by (symmetry; by apply Z.ltb_lt).
    destruct (Client.effectiveRequired _ _ _ _); simpl;
      eexists; (split; [done|]).
    + apply elem_of_app. right. apply list_elem_of_here.
    + apply list_elem_of_here.
Qed.

Lemma min_length_absent_or_short_witness :
  ("N" ∈ ["N"])
  ∧ (0 < 3)
  ∧ Client.fieldErrors None (list_to_set ["N"]) ∅
      (Text (mkTextField "N" "Name" (Some (mkValidation None (Some 3) None))))
    = Some []
  ∧ ∃ errs,
      Client.fieldErrors None (list_to_set ["N"]) {["N" := VString ""]}
        (Text (mkTextField "N" "Name" (Some (mkValidation None (Some 3) None))))
      = Some errs
      ∧ "Name must be at least 3 characters." ∈ errs.
Proof.
  assert ("N" ∈ ["N"]) as H1 by compute_done.
  assert (0 < 3) as H2 by lia.
  split; [exact H1|]. split; [exact H2|]. split.
  - exact (proj1 (min_length_absent_or_short
                    (mkTextField "N" "Name" (Some (mkValidation None (Some 3) None)))
                    3 None ["N"] ∅ H1 eq_refl H2) eq_refl).
  - exact (proj2 (min_length_absent_or_short
                    (mkTextField "N" "Name" (Some (mkValidation None (Some 3) None)))
                    3 None ["N"] {["N" := VString ""]} H1 eq_refl H2)
             "" eq_refl H2).
Defined.

(** X10: the server enforces the required rule of a text field whether
    the client shows the field or not. For a required text field left
    without a value, the server's result, when it returns, contains the
    field's "is required." message and the response is not stored, while
    the client-side validator pushes nothing for the field when it is not
    visible: a form whose branch hides a required text field passes the
    client and is refused by the server. *)
Theorem hidden_required_refused_by_server (form : FormSchema) (t : TextField)
    (data : gmap string Value) :
  Text t ∈ fields form →
  text_validation t ≫= required = Some true →
  data !! text_id t = None →
  (∀ errs, Server.validateResponse form data = Some errs →
           text_label t +:+ " is required." ∈ errs)
  ∧ (∀ db id, Api.forms db !! id = Some form →
              (Api.postResponse db id data).2 = db
              ∧ (Api.status (Api.postResponse db id data).1 = 400
                 ∨ Api.status (Api.postResponse db id data).1 = 500))
  ∧ (∀ jumpTargetId (visibleFieldIds : list string),
       text_id t ∉ visibleFieldIds →
       Client.fieldErrors jumpTargetId (list_to_set visibleFieldIds) data (Text t)
       = Some []).
Proof.
  intros Hfield Hreq Habsent.
  assert (∀ rest, Server.textErrors t (data !! text_id t) = Some rest →
                  text_label t +:+ " is required." ∈ rest) as Hpushed.
  { intros rest. apply server_textErrors_required; auto. }
  assert (Server.validateResponse form data ≠ Some []) as Hrejected.
  { unfold Server.validateResponse.
    apply (mapM_concat_nonempty _ _ (Text t) Hfield).
    apply server_fieldErrors_nonempty. intros rest Hrest ->.
    apply Hpushed in Hrest. by apply elem_of_nil in Hrest. }
  split; [|split].
  - intros errs Herrs. unfold Server.validateResponse in Herrs.
    destruct (Server.fieldErrors data (Text t)) as [l|] eqn:Hl.
    + apply (mapM_concat_elem _ _ _ (Text t) l _ Herrs Hfield Hl).
      unfold Server.fieldErrors in Hl. simpl in Hl.
      destruct (Server.textErrors t (data !! text_id t)) as [rest|] eqn:Hrest;
        simpl in Hl; [|done].
      injection Hl as <-. apply elem_of_app. right. by apply Hpushed.
    + destruct (mapM (Server.fieldErrors data) (fields form)) as [pushed|] eqn:Hm;
        [|done].
      apply mapM_Some_1 in Hm.
      apply list_elem_of_lookup in Hfield as [i Hi].
      destruct (Forall2_lookup_l _ _ _ _ _ Hm Hi) as (k & _ & Hk). congruence.
  - intros db id Hform. by apply postResponse_rejected with form.
  - intros jt vis Hhidden. apply fieldErrors_hidden.
    by rewrite elem_of_list_to_set.
Qed.

Lemma hidden_required_refused_by_server_witness :
  (Text (mkTextField "Q1" "Q1" Scenario.requiredOnly)
   ∈ fields (mkFormSchema (Some "f") "form" Scenario.branching))
  ∧ Preview.passesClient (mkFormSchema (Some "f") "form" Scenario.branching)
      {["D" := VString "Yes"; "Q2" := VString "answer"]}
    = Some true
  ∧ (Api.postResponse
       (Api.mkDatabase
          {["f" := mkFormSchema (Some "f") "form" Scenario.branching]} [])
       "f" {["D" := VString "Yes"; "Q2" := VString "answer"]}).2
    = Api.mkDatabase
        {["f" := mkFormSchema (Some "f") "form" Scenario.branching]} [].
Proof.
  assert (Text (mkTextField "Q1" "Q1" Scenario.requiredOnly)
          ∈ fields (mkFormSchema (Some "f") "form" Scenario.branching)) as H
    by (apply list_elem_of_further, list_elem_of_here).
  split; [exact H|]. split; [by vm_compute|].
  refine (proj1 (proj1 (proj2 (hidden_required_refused_by_server
                                 (mkFormSchema (Some "f") "form" Scenario.branching)
                                 (mkTextField "Q1" "Q1" Scenario.requiredOnly)
                                 {["D" := VString "Yes"; "Q2" := VString "answer"]}
                                 H eq_refl _))
                  (Api.mkDatabase
                     {["f" := mkFormSchema (Some "f") "form" Scenario.branching]} [])
                  "f" _)).
  - by vm_compute.
  - by vm_compute.
Defined.

(** * The editor's check of a form *)

Section EditorCheck.
Implicit Types (s pre title : string) (opts : list string) (fs : list FormField).

Lemma blank_spec s : Editor.blank s = false ↔ nonBlank s.
Proof.
  unfold Editor.blank, nonBlank, JS.truthyString.
  rewrite orb_false_iff, !negb_false_iff, !negb_true_iff, !bool_decide_eq_false.
  split; [by intros [_ ?]|]. intros Hs. split; [|done]. by intros ->.
Qed.

Lemma pushIf_nil c msg : pushIf c msg = [] ↔ c = false.
Proof. destruct c; simpl; split; congruence. Qed.

Lemma concat_imap_nil {A B} (f : nat → A → list B) (l : list A) :
  concat (imap f l) = [] ↔ ∀ i x, l !! i = Some x → f i x = [].
Proof.
  revert f. induction l as [|y l IH]; intros f; simpl.
  - split; [|done]. by intros _ i x.
  - rewrite app_nil, IH. split.
    + intros [Hy Hl] [|i] x Hx; simpl in Hx; [by simplify_eq|]. by apply Hl.
    + intros Hall. split; [by apply (Hall 0%nat)|].
      intros i x Hx. by apply (Hall (S i)).
Qed.

Lemma optionErrors_nil pre opts :
  Editor.optionErrors pre opts = [] ↔ Forall nonBlank opts.
Proof.
  unfold Editor.optionErrors. rewrite concat_imap_nil, Forall_lookup.
  split; intros Hall i opt Hopt.
  - apply blank_spec. exact (proj1 (pushIf_nil _ _) (Hall i opt Hopt)).
  - apply pushIf_nil, blank_spec, (Hall i opt Hopt).
Qed.

Lemma dropdownErrors_nil (d : DropdownField) :
  Editor.dropdownErrors d = [] ↔ options d ≠ [] ∧ Forall nonBlank (options d).
Proof.
  unfold Editor.dropdownErrors. destruct (options d) as [|opt opts] eqn:Hopts.
  - split; [done|]. by intros [? _].
  - rewrite optionErrors_nil. split; [by intros ? | by intros [_ ?]].
Qed.

Lemma columnErrors_nil (t : TableField) i (col : TableColumn) :
  Editor.columnErrors t i col = [] ↔ columnWellFormed col.
Proof.
  unfold Editor.columnErrors, columnWellFormed.
  rewrite app_nil, pushIf_nil, blank_spec.
  apply and_iff_compat_l.
  destruct (col_type col); [by split|].
  destruct (col_options col) as [[|opt opts]|].
  - split; [done|]. by intros (opts' & [= <-] & ? & _); [done|].
  - rewrite optionErrors_nil. split.
    + intros Hopts _. by exists (opt :: opts).
    + intros Hopts. by destruct (Hopts eq_refl) as (opts' & [= <-] & _ & ?).
  - split; [done|]. by intros (opts' & ? & _); [done|].
Qed.

Lemma tableErrors_nil (t : TableField) :
  Editor.tableErrors t = []
  ↔ columns t ≠ []
    ∧ Forall columnWellFormed (columns t)
    ∧ match mode t, rowLabels t with
      | Static, Some labels => Forall nonBlank labels
      | _, _ => True
      end.
Proof.
  unfold Editor.tableErrors. rewrite app_nil.
  assert (match mode t, rowLabels t with
          | Static, Some labels =>
              concat (imap (λ i rl,
                pushIf (Editor.blank rl)
                  (("Table '" +:+ table_label t +:+ "'") +:+ " row "
                   +:+ pretty (i + 1)%nat +:+ " label cannot be empty.")) labels)
          | _, _ => []
          end = []
          ↔ match mode t, rowLabels t with
            | Static, Some labels => Forall nonBlank labels
            | _, _ => True
            end) as ->.
  { destruct (mode t), (rowLabels t) as [labels|]; try done.
    rewrite concat_imap_nil, Forall_lookup.
    split; intros Hall i rl Hrl.
    - apply blank_spec. exact (proj1 (pushIf_nil _ _) (Hall i rl Hrl)).
    - apply pushIf_nil, blank_spec, (Hall i rl Hrl). }
  destruct (columns t) as [|col cols] eqn:Hcols.
  - split; [by intros [? _] | by intros [? _]].
  - rewrite concat_imap_nil, Forall_lookup.
    split.
    + intros [Hall ?]. split; [done|]. split; [|done].
      intros i c Hc. by apply (columnErrors_nil t i), Hall.
    + intros (_ & Hall & ?). split; [|done].
      intros i c Hc. by apply columnErrors_nil, (Hall i).
Qed.

Lemma editor_fieldErrors_nil idx (f : FormField) :
  Editor.fieldErrors idx f = [] ↔ fieldWellFormed f.
Proof.
  unfold Editor.fieldErrors, fieldWellFormed.
  rewrite app_nil, pushIf_nil, blank_spec.
  apply and_iff_compat_l.
  destruct f as [t|d|t]; [done|apply dropdownErrors_nil|apply tableErrors_nil].
Qed.

Lemma validateForm_nil title fs :
  Editor.validateForm title fs = [] ↔ nonBlank title ∧ Forall fieldWellFormed fs.
Proof.
  unfold Editor.validateForm.
  rewrite app_nil, pushIf_nil, blank_spec, concat_imap_nil, Forall_lookup.
  apply and_iff_compat_l.
  split; intros Hall i f Hf.
  - by apply (editor_fieldErrors_nil i), Hall.
  - by apply editor_fieldErrors_nil, (Hall i).
Qed.

Lemma wellFormed_isFormValid fs :
  Forall fieldWellFormed fs → Editor.isFormValid fs = bool_decide (fs ≠ []).
Proof.
  intros Hall. unfold Editor.isFormValid.
  replace (forallb _ fs) with true; [by rewrite andb_true_r|].
  symmetry. apply forallb_forall. intros f Hf%list_elem_of_In.
  rewrite Forall_forall in Hall. destruct (Hall f Hf) as [_ Hshape].
  destruct f as [t|d|t]; try done.
  destruct Hshape as [? _]. by apply bool_decide_eq_true.
Qed.

End EditorCheck.

(** X11: what the editor lets the user save. [validateForm] returns no
    error exactly when the title is not blank and every field has a
    non-blank label, every dropdown at least one option and none blank,
    every table at least one column, each with a non-blank label and, for
    a dropdown column, a non-empty list of non-blank options, and every
    row label of a static table that has row labels is non-blank; the Save
    button is enabled exactly when, in addition, the form has a field.
    Nothing is asked of validation bounds, of condition targets, or of a
    static table having row labels. *)
Theorem validateForm_accepts (title : string) (fs : list FormField) :
  (Editor.validateForm title fs = [] ↔ nonBlank title ∧ Forall fieldWellFormed fs)
  ∧ (Editor.saveEnabled title fs = true
     ↔ fs ≠ [] ∧ nonBlank title ∧ Forall fieldWellFormed fs)
  ∧ (is_Some (Editor.handleSave title fs)
     ↔ nonBlank title ∧ Forall fieldWellFormed fs).
Proof.
  split; [apply validateForm_nil|]. split.
  - unfold Editor.saveEnabled.
    rewrite andb_true_iff, bool_decide_eq_true, validateForm_nil. split.
    + intros [Hvalid [? Hall]].
      rewrite (wellFormed_isFormValid fs Hall), bool_decide_eq_true in Hvalid.
      done.
    + intros (? & ? & Hall). split; [|done].
      rewrite (wellFormed_isFormValid fs Hall). by apply bool_decide_eq_true.
  - rewrite <- validateForm_nil. unfold Editor.handleSave.
    destruct (Editor.validateForm title fs); split; done.
Qed.

(** X12: for a form that the editor accepts, the server pushes no
    missing-label message: on every value map in which no table holds
    rows, its result is that of the client-side validator applied with
    every field visible and nothing suppressed. *)
Theorem saved_form_server_agrees (title : string) (fs : list FormField)
    (formId : option string) (data : gmap string Value) :
  Editor.validateForm title fs = [] →
  Forall (λ f, ¬ holdsRows data f) fs →
  Server.validateResponse (mkFormSchema formId title fs) data
  = Client.validateFields None (list_to_set (field_id <$> fs)) data fs.
Proof.
  intros [_ Hall]%validateForm_nil Hrows.
  unfold Server.validateResponse, Client.validateFields. simpl. f_equal.
  apply Forall_mapM_ext, Forall_forall. intros f Hf.
  rewrite Forall_forall in Hall, Hrows.
  rewrite (server_fieldErrors_client (list_to_set (field_id <$> fs))).
  - rewrite labelErrors_labelled; [by destruct (Client.fieldErrors _ _ _ _)|].
    destruct (Hall f Hf) as [Hlabel _]. unfold nonBlank in Hlabel.
    unfold JS.truthyString. by rewrite bool_decide_eq_false_2.
  - rewrite elem_of_list_to_set. apply list_elem_of_fmap. eauto.
  - by apply Hrows.
Qed.

Lemma saved_form_server_agrees_witness :
  Editor.validateForm "Survey" Scenario.branching = []
  ∧ Forall (λ f, ¬ holdsRows {["D" := VString "Yes"]} f) Scenario.branching
  ∧ Server.validateResponse (mkFormSchema None "Survey" Scenario.branching)
      {["D" := VString "Yes"]}
    = Some ["Q1 is required."; "Q2 is required."].
Proof.
  assert (Editor.validateForm "Survey" Scenario.branching = []) as H1
    by (by vm_compute).
  assert (Forall (λ f, ¬ holdsRows {["D" := VString "Yes"]} f) Scenario.branching)
    as H2.
  { repeat constructor; intros (t & rows & Hf & _); discriminate Hf. }
  split; [exact H1|]. split; [exact H2|].
  etrans;
    [exact (saved_form_server_agrees "Survey" Scenario.branching None
              {["D" := VString "Yes"]} H1 H2)
    | by vm_compute].
Defined.

(** * Editing a form and previewing it *)

Section Editing.
Implicit Types (fs pre post : list FormField) (values : gmap string Value).

Lemma field_id_applyChanges f ch : field_id (Editor.applyChanges f ch) = field_id f.
Proof. by destruct ch, f. Qed.

(** With unique ids, [updateFieldList] changes the one field with the id. *)
Lemma updateFieldList_unique pre f post ch :
  NoDup (field_id <$> pre ++ f :: post) →
  Editor.updateFieldList (pre ++ f :: post) (field_id f) ch
  = pre ++ Editor.applyChanges f ch :: post.
Proof.
  intros [Hpre Hpost]%NoDup_field_id_split.
  unfold Editor.updateFieldList. rewrite fmap_app, fmap_cons.
  rewrite decide_True by done. f_equal; [|f_equal].
  - rewrite <- (list_fmap_id pre) at 2. apply list_fmap_ext.
    intros i g Hg. rewrite Forall_lookup in Hpre.
    by rewrite decide_False by (by apply (Hpre i)).
  - rewrite <- (list_fmap_id post) at 2. apply list_fmap_ext.
    intros i g Hg. rewrite Forall_lookup in Hpost.
    by rewrite decide_False by (by apply (Hpost i)).
Qed.

Lemma removeField_app fs1 fs2 id :
  Editor.removeField (fs1 ++ fs2) id
  = Editor.removeField fs1 id ++ Editor.removeField fs2 id.
Proof. apply filter_app. Qed.

Lemma removeField_absent fs id : Forall (λ g, field_id g ≠ id) (Editor.removeField fs id).
Proof. apply Forall_forall. by intros g [? _]%list_elem_of_filter. Qed.

Lemma removeField_none fs id :
  Forall (λ g, conditionOf g = None) fs →
  Forall (λ g, conditionOf g = None) (Editor.removeField fs id).
Proof.
  rewrite !Forall_forall. intros Hfs g [_ Hg]%list_elem_of_filter. by apply Hfs.
Qed.

(** Removing fields that carry no condition leaves every condition map,
    and so the possible jump targets, as they were. *)
Lemma possibleJumpTargets_removeField fs id :
  Forall (λ g, field_id g = id → conditionOf g = None) fs →
  possibleJumpTargets (Editor.removeField fs id) = possibleJumpTargets fs.
Proof.
  unfold Editor.removeField.
  induction 1 as [|g fs Hg _ IH]; [done|].
  rewrite filter_cons. destruct (decide (field_id g ≠ id)) as [Hne|Heq]; simpl.
  - by rewrite IH.
  - rewrite IH, Hg; [by rewrite (left_id_L ∅ (∪))|].
    by destruct (decide (field_id g = id)).
Qed.

Lemma filter_all {A} (P : A → Prop) `{∀ x, Decision (P x)} (l : list A) :
  Forall P l → filter P l = l.
Proof.
  induction 1 as [|x l Hx _ IH]; [done|].
  by rewrite filter_cons_True, IH.
Qed.

Lemma conditionTargets_empty : conditionTargets ∅ = ∅.
Proof.
  unfold conditionTargets. rewrite map_img_empty_L.
  apply set_eq. intros x. rewrite elem_of_filter.
  split; [by intros [_ ?%not_elem_of_empty] | by intros ?%not_elem_of_empty].
Qed.

(** The resolver's result when the selected target names no field. *)
Lemma getVisibleFieldIds_dangling pre f c post values t :
  Forall (λ g, conditionOf g = None) pre →
  conditionOf f = Some c →
  selectedTarget c (values !! field_id f) = Some t →
  Forall (λ g, field_id g ≠ t) (pre ++ f :: post) →
  getVisibleFieldIds (pre ++ f :: post) values
  = field_id f :: t
    :: (field_id <$>
          filter (λ g, field_id g ∉ possibleJumpTargets (pre ++ f :: post))
            (pre ++ f :: post)).
Proof.
  intros Hpre Hf Hsel Habsent.
  rewrite (getVisibleFieldIds_branch pre f c post values Hpre Hf), Hsel.
  simpl app. do 2 f_equal.
  unfold afterIdx, JS.findIndex.
  rewrite findIndexFrom_absent.
  - simpl drop. by rewrite filter_shownAfter_Some.
  - eapply Forall_impl; [exact Habsent|].
    intros g Hg. by apply bool_decide_eq_false.
Qed.

End Editing.

(** X13: deleting a field in the editor does not remove it from the
    condition maps. When the deleted field was the selected jump target
    (and carried no condition itself), the possible jump targets are
    unchanged and the preview of the remaining fields lists the branching
    dropdown's id, the deleted id, and then every remaining field that is
    no possible jump target, starting from the top of the form. *)
Theorem removed_target_stays_selected (pre : list FormField) (f : FormField)
    (c : gmap string string) (post : list FormField)
    (values : gmap string Value) (t : string) :
  Forall (λ g, conditionOf g = None) pre →
  conditionOf f = Some c →
  selectedTarget c (values !! field_id f) = Some t →
  field_id f ≠ t →
  Forall (λ g, field_id g = t → conditionOf g = None) post →
  possibleJumpTargets (Editor.removeField (pre ++ f :: post) t)
  = possibleJumpTargets (pre ++ f :: post)
  ∧ getVisibleFieldIds (Editor.removeField (pre ++ f :: post) t) values
    = field_id f :: t
      :: (field_id <$>
            filter (λ g, field_id g ∉ possibleJumpTargets (pre ++ f :: post))
              (Editor.removeField (pre ++ f :: post) t)).
Proof.
  intros Hpre Hf Hsel Hne Hpost.
  assert (possibleJumpTargets (Editor.removeField (pre ++ f :: post) t)
          = possibleJumpTargets (pre ++ f :: post)) as Htargets.
  { apply possibleJumpTargets_removeField.
    apply Forall_app. split; [|constructor; [done|exact Hpost]].
    eapply Forall_impl; [exact Hpre|]. by intros g Hg _. }
  split; [exact Htargets|].
  rewrite <- Htargets.
  pose proof (removeField_absent (pre ++ f :: post) t) as Habsent.
  revert Habsent. rewrite removeField_app.
  assert (Editor.removeField (f :: post) t = f :: Editor.removeField post t) as ->.
  { unfold Editor.removeField. rewrite filter_cons. by rewrite decide_True. }
  intros Habsent.
  apply (getVisibleFieldIds_dangling _ f c _ values t); try done.
  by apply removeField_none.
Qed.

Lemma removed_target_stays_selected_witness :
  Forall (λ g, conditionOf g = None) [Scenario.Q0]
  ∧ field_id (Dropdown Scenario.D) ≠ "Q2"
  ∧ Editor.removeField ([Scenario.Q0] ++ Dropdown Scenario.D :: [Scenario.Q1; Scenario.Q2])
      "Q2"
    = [Scenario.Q0; Dropdown Scenario.D; Scenario.Q1]
  ∧ getVisibleFieldIds
      (Editor.removeField
         ([Scenario.Q0] ++ Dropdown Scenario.D :: [Scenario.Q1; Scenario.Q2]) "Q2")
      {["D" := VString "Yes"]}
    = ["D"; "Q2"; "Q0"; "D"; "Q1"].
Proof.
  assert (Forall (λ g, conditionOf g = None) [Scenario.Q0]) as H1
    by (by repeat constructor).
  assert (field_id (Dropdown Scenario.D) ≠ "Q2") as H2 by done.
  split; [exact H1|]. split; [exact H2|]. split; [by vm_compute|].
  etrans;
    [refine (proj2 (removed_target_stays_selected [Scenario.Q0]
                      (Dropdown Scenario.D) {["Yes" := "Q2"]}
                      [Scenario.Q1; Scenario.Q2] {["D" := VString "Yes"]} "Q2"
                      H1 eq_refl _ H2 _));
     [by vm_compute | by repeat constructor]
    | by vm_compute].
Defined.

(** ** The resolver and the members of [Object.prototype] *)

Section ProtoResolver.
Implicit Types (fs pre post : list FormField) (values : gmap string Value).

Lemma proto_findJumpDropdown_none i fs values :
  Forall (λ f, conditionOf f = None) fs →
  Proto.findJumpDropdown i fs values = (-1, None).
Proof.
  intros Hfs. revert i.
  induction Hfs as [|f fs Hf _ IH]; intros i; simpl; [done|].
  by rewrite Hf.
Qed.

Lemma proto_findJumpDropdown_first i pre f c post values :
  Forall (λ g, conditionOf g = None) pre →
  conditionOf f = Some c →
  Proto.findJumpDropdown i (pre ++ f :: post) values
  = (i + Z.of_nat (length pre), Proto.selectedTarget c (values !! field_id f)).
Proof.
  intros Hpre Hf. revert i.
  induction Hpre as [|g pre Hg _ IH]; intros i; simpl.
  - rewrite Hf. f_equal. lia.
  - rewrite Hg, IH. f_equal. lia.
Qed.

Lemma proto_getVisibleFieldIds_branch pre f c post values :
  Forall (λ g, conditionOf g = None) pre →
  conditionOf f = Some c →
  Proto.getVisibleFieldIds (pre ++ f :: post) values
  = Proto.PushedId (field_id f)
    :: match Proto.selectedTarget c (values !! field_id f) with
       | Some t => [t]
       | None => []
       end
    ++ ((λ g, Proto.PushedId (field_id g)) <$>
          filter (Proto.shownAfter (possibleJumpTargets (pre ++ f :: post))
                    (Proto.selectedTarget c (values !! field_id f)))
            (drop (Z.to_nat
                     (Proto.afterIdx (pre ++ f :: post) (Z.of_nat (length pre))
                        (Proto.selectedTarget c (values !! field_id f))))
               (pre ++ f :: post))).
Proof.
  intros Hpre Hf. unfold Proto.getVisibleFieldIds.
  rewrite (proto_findJumpDropdown_first 0 pre f c post values Hpre Hf).
  rewrite Z.add_0_l.
  replace (Z.of_nat (length pre) =? -1) with false by (symmetry; apply Z.eqb_neq; lia).
  simpl negb. cbv iota.
  rewrite Nat2Z.id.
  rewrite list_lookup_middle by done. done.
Qed.

(** Unless the value names an inherited member that the condition map does
    not define itself, the lookup is the one among own properties. *)
Lemma proto_selectedTarget_own c (v : option Value) :
  (∀ x, v = Some x → c !! JS.toPropertyKey x = None →
        JS.toPropertyKey x ∉ Proto.members) →
  Proto.selectedTarget c v = Proto.PushedId <$> selectedTarget c v.
Proof.
  intros Hown. unfold Proto.selectedTarget, selectedTarget.
  destruct v as [x|]; [|done].
  destruct (JS.truthy (Some x)); [|done].
  destruct (c !! JS.toPropertyKey x) as [t|] eqn:Hc.
  - by destruct (JS.truthyString t).
  - by rewrite bool_decide_eq_false_2 by (by apply Hown).
Qed.

Lemma proto_selectedTarget_member c (x : Value) :
  JS.truthy (Some x) = true → c !! JS.toPropertyKey x = None →
  JS.toPropertyKey x ∈ Proto.members →
  Proto.selectedTarget c (Some x)
  = Some (Proto.PushedMember (JS.toPropertyKey x)).
Proof.
  intros Htruthy Hc Hmember. unfold Proto.selectedTarget.
  by rewrite Htruthy, Hc, bool_decide_eq_true_2.
Qed.

Lemma proto_shape (targets : gset string) (jt : option string) fs idx :
  match Proto.PushedId <$> jt with Some t => [t] | None => [] end
  ++ ((λ g, Proto.PushedId (field_id g)) <$>
        filter (Proto.shownAfter targets (Proto.PushedId <$> jt))
          (drop (Z.to_nat (Proto.afterIdx fs idx (Proto.PushedId <$> jt))) fs))
  = Proto.PushedId <$>
      (match jt with Some t => [t] | None => [] end
       ++ (field_id <$>
             filter (shownAfter targets jt)
               (drop (Z.to_nat (afterIdx fs idx jt)) fs))).
Proof.
  rewrite fmap_app, <- list_fmap_compose. f_equal; [by destruct jt|].
  assert (Proto.afterIdx fs idx (Proto.PushedId <$> jt) = afterIdx fs idx jt)
    as -> by (by destruct jt).
  f_equal. apply list_filter_iff. intros g.
  unfold Proto.shownAfter, shownAfter.
  destruct jt as [t|]; simpl; split; intros [?|Heq]; auto; right;
    congruence.
Qed.

(** The resolver over own properties computes the result of the code
    whenever the branching dropdown's value names no inherited member, or
    one that the condition map defines itself. *)
Lemma proto_agrees_at pre f c post values :
  Forall (λ g, conditionOf g = None) pre →
  conditionOf f = Some c →
  (∀ x, values !! field_id f = Some x → c !! JS.toPropertyKey x = None →
        JS.toPropertyKey x ∉ Proto.members) →
  Proto.getVisibleFieldIds (pre ++ f :: post) values
  = Proto.PushedId <$> getVisibleFieldIds (pre ++ f :: post) values.
Proof.
  intros Hpre Hf Hown.
  rewrite (proto_getVisibleFieldIds_branch pre f c post values Hpre Hf),
    (getVisibleFieldIds_branch pre f c post values Hpre Hf).
  rewrite proto_selectedTarget_own by done.
  rewrite fmap_cons. f_equal. apply proto_shape.
Qed.

Lemma proto_agrees_none fs values :
  Forall (λ f, conditionOf f = None) fs →
  Proto.getVisibleFieldIds fs values = Proto.PushedId <$> (field_id <$> fs).
Proof.
  intros Hnone. unfold Proto.getVisibleFieldIds.
  rewrite (proto_findJumpDropdown_none 0 fs values Hnone).
  simpl. by rewrite <- list_fmap_compose.
Qed.

Lemma proto_agrees fs values :
  (∀ id x, jumpDropdownId fs = Some id → values !! id = Some x →
           JS.toPropertyKey x ∉ Proto.members) →
  Proto.getVisibleFieldIds fs values = Proto.PushedId <$> getVisibleFieldIds fs values.
Proof.
  intros Hown.
  destruct (first_condition_split fs) as [Hnone|(pre & f & c & post & -> & Hpre & Hf)].
  - rewrite (proto_agrees_none fs values Hnone). unfold getVisibleFieldIds.
    by rewrite (findJumpDropdown_none 0 fs values Hnone).
  - apply (proto_agrees_at pre f c post values Hpre Hf).
    intros x Hx _. apply (Hown (field_id f) x); [|done].
    by apply jumpDropdownId_first with c.
Qed.

(** When the value names an inherited member that the condition map does
    not define, the member is the jump target: it is pushed after the
    dropdown's id, it is the id of no field, so the scan starts at index 0,
    and every field that is no possible jump target is shown. *)
Lemma proto_member pre f c post values (x : Value) :
  Forall (λ g, conditionOf g = None) pre →
  conditionOf f = Some c →
  values !! field_id f = Some x →
  JS.truthy (Some x) = true → c !! JS.toPropertyKey x = None →
  JS.toPropertyKey x ∈ Proto.members →
  Proto.getVisibleFieldIds (pre ++ f :: post) values
  = Proto.PushedId (field_id f) :: Proto.PushedMember (JS.toPropertyKey x)
    :: (Proto.PushedId <$>
          (field_id <$>
             filter (λ g, field_id g ∉ possibleJumpTargets (pre ++ f :: post))
               (pre ++ f :: post))).
Proof.
  intros Hpre Hf Hx Htruthy Hc Hmember.
  rewrite (proto_getVisibleFieldIds_branch pre f c post values Hpre Hf), Hx.
  rewrite (proto_selectedTarget_member c x Htruthy Hc Hmember).
  simpl app. do 2 f_equal.
  unfold Proto.afterIdx, JS.findIndex.
  rewrite findIndexFrom_absent by (by apply Forall_forall).
  simpl drop. rewrite <- list_fmap_compose. f_equal.
  apply list_filter_iff. intros g. unfold Proto.shownAfter.
  split; [by intros [?|?]|by left].
Qed.

Lemma proto_members_truthy (key : string) :
  key ∈ Proto.members → JS.truthy (Some (VString key)) = true.
Proof.
  intros Hkey. simpl. unfold JS.truthyString.
  rewrite bool_decide_eq_false_2; [done|]. intros ->.
  assert ("" ∉ Proto.members) as Hempty by compute_done.
  by apply Hempty.
Qed.

(** The resolver over own properties on a dropdown whose conditional logic
    has just been switched on. *)
Lemma getVisibleFieldIds_enabled pre (d : DropdownField) post values :
  Forall (λ g, conditionOf g = None) (pre ++ post) →
  getVisibleFieldIds
    (pre ++ Dropdown (mkDropdownField (dropdown_id d) (dropdown_label d)
                        (options d) (dropdown_validation d) (Some ∅)) :: post)
    values
  = dropdown_id d :: (field_id <$> post).
Proof.
  intros [Hpre Hpost]%Forall_app.
  rewrite (getVisibleFieldIds_branch pre
             (Dropdown (mkDropdownField (dropdown_id d) (dropdown_label d)
                          (options d) (dropdown_validation d) (Some ∅)))
             ∅ post values Hpre eq_refl).
  simpl. unfold selectedTarget.
  assert (∀ v : option Value,
            match v with
            | Some x =>
                if JS.truthy v
                then match (∅ : gmap string string) !! JS.toPropertyKey x with
                     | Some t => if JS.truthyString t then Some t else None
                     | None => None
                     end
                else None
            | None => None
            end = None) as ->.
  { intros [x|]; [|done]. destruct (JS.truthy (Some x)); [|done].
    by rewrite lookup_empty. }
  simpl. f_equal. unfold afterIdx.
  replace (Z.to_nat (Z.of_nat (length pre) + 1)) with (length pre + 1)%nat by lia.
  rewrite <- drop_drop, drop_app_length. simpl drop.
  rewrite filter_shownAfter_None.
  rewrite possibleJumpTargets_app. simpl.
  rewrite !possibleJumpTargets_none by done.
  f_equal. apply filter_all, Forall_forall. intros g _.
  rewrite conditionTargets_empty, !(left_id_L ∅ (∪)).
  apply not_elem_of_empty.
Qed.

End ProtoResolver.

(** X14: switching on the conditional logic of a dropdown, before any
    target is chosen, already changes the preview. In a form without
    conditions (ids unique) all fields are shown. After
    [setConditionEnabled(true)] on a dropdown only that dropdown and the
    fields after it are, for every value of the dropdown that does not
    name a member of [Object.prototype]; for a value that does
    ("constructor", "toString", ...) the empty condition object yields the
    inherited member as jump target, which is pushed after the dropdown's
    id, and every field of the form is listed again from the top.
    Switching the logic off again gives back the field list. *)
Theorem enabling_condition_hides_earlier_fields (pre : list FormField)
    (d : DropdownField) (post : list FormField) (values : gmap string Value) :
  NoDup (field_id <$> pre ++ Dropdown d :: post) →
  Forall (λ g, conditionOf g = None) (pre ++ Dropdown d :: post) →
  Proto.getVisibleFieldIds (pre ++ Dropdown d :: post) values
  = Proto.PushedId <$> (field_id <$> pre ++ Dropdown d :: post)
  ∧ ((∀ x, values !! dropdown_id d = Some x →
           JS.toPropertyKey x ∉ Proto.members) →
     Proto.getVisibleFieldIds
       (Editor.updateFieldList (pre ++ Dropdown d :: post) (dropdown_id d)
          (Editor.setConditionEnabled true))
       values
     = Proto.PushedId <$> (dropdown_id d :: (field_id <$> post)))
  ∧ (∀ key,
       values !! dropdown_id d = Some (VString key) → key ∈ Proto.members →
       Proto.getVisibleFieldIds
         (Editor.updateFieldList (pre ++ Dropdown d :: post) (dropdown_id d)
            (Editor.setConditionEnabled true))
         values
       = Proto.PushedId (dropdown_id d) :: Proto.PushedMember key
         :: (Proto.PushedId <$> (field_id <$> pre ++ Dropdown d :: post)))
  ∧ Editor.updateFieldList
      (Editor.updateFieldList (pre ++ Dropdown d :: post) (dropdown_id d)
         (Editor.setConditionEnabled true))
      (dropdown_id d) (Editor.setConditionEnabled false)
    = pre ++ Dropdown d :: post.
Proof.
  intros Hnodup Hnone.
  pose proof Hnone as [Hpre [Hd Hpost]%Forall_cons]%Forall_app.
  simpl in Hd.
  assert (Editor.updateFieldList (pre ++ Dropdown d :: post) (dropdown_id d)
            (Editor.setConditionEnabled true)
          = pre ++ Dropdown (mkDropdownField (dropdown_id d) (dropdown_label d)
                               (options d) (dropdown_validation d) (Some ∅))
                   :: post) as Henabled.
  { by rewrite (updateFieldList_unique pre (Dropdown d) post _ Hnodup). }
  split; [by apply proto_agrees_none|]. split; [|split].
  - intros Hvalue. rewrite Henabled.
    rewrite (proto_agrees_at pre
               (Dropdown (mkDropdownField (dropdown_id d) (dropdown_label d)
                            (options d) (dropdown_validation d) (Some ∅)))
               ∅ post values Hpre eq_refl).
    + rewrite getVisibleFieldIds_enabled; [done|]. by apply Forall_app.
    + intros x Hx _. by apply Hvalue.
  - intros key Hvalue Hkey. rewrite Henabled.
    rewrite (proto_member pre
               (Dropdown (mkDropdownField (dropdown_id d) (dropdown_label d)
                            (options d) (dropdown_validation d) (Some ∅)))
               ∅ post values (VString key) Hpre eq_refl Hvalue
               (proto_members_truthy key Hkey) (lookup_empty _) Hkey).
    simpl JS.toPropertyKey. simpl field_id. do 3 f_equal.
    rewrite filter_all.
    + by rewrite !fmap_app, !fmap_cons.
    + apply Forall_forall. intros g _.
      rewrite possibleJumpTargets_app. simpl.
      rewrite !possibleJumpTargets_none by done.
      rewrite conditionTargets_empty, !(left_id_L ∅ (∪)).
      apply not_elem_of_empty.
  - rewrite Henabled.
    change (dropdown_id d)
      with (field_id (Dropdown (mkDropdownField (dropdown_id d) (dropdown_label d)
                                  (options d) (dropdown_validation d) (Some ∅)))).
    rewrite updateFieldList_unique.
    + simpl. do 2 f_equal.
      destruct d as [i l o v c]. simpl in *. by rewrite Hd.
    + by rewrite fmap_app, fmap_cons in Hnodup |- *.
Qed.

Lemma enabling_condition_hides_earlier_fields_witness :
  NoDup (field_id <$> [Scenario.Q0]
                      ++ Dropdown (mkDropdownField "G" "Group" ["A"; "B"] None None)
                         :: [Scenario.Q1])
  ∧ Proto.getVisibleFieldIds
      (Editor.updateFieldList
         ([Scenario.Q0]
          ++ Dropdown (mkDropdownField "G" "Group" ["A"; "B"] None None)
             :: [Scenario.Q1])
         "G" (Editor.setConditionEnabled true))
      {["G" := VString "A"]}
    = [Proto.PushedId "G"; Proto.PushedId "Q1"]
  ∧ Proto.getVisibleFieldIds
      (Editor.updateFieldList
         ([Scenario.Q0]
          ++ Dropdown (mkDropdownField "G" "Group" ["A"; "B"] None None)
             :: [Scenario.Q1])
         "G" (Editor.setConditionEnabled true))
      {["G" := VString "constructor"]}
    = [Proto.PushedId "G"; Proto.PushedMember "constructor";
       Proto.PushedId "Q0"; Proto.PushedId "G"; Proto.PushedId "Q1"].
Proof.
  assert (NoDup (field_id <$> [Scenario.Q0]
                   ++ Dropdown (mkDropdownField "G" "Group" ["A"; "B"] None None)
                      :: [Scenario.Q1])) as H by compute_done.
  assert (Forall (λ g, conditionOf g = None)
            ([Scenario.Q0]
             ++ Dropdown (mkDropdownField "G" "Group" ["A"; "B"] None None)
                :: [Scenario.Q1])) as Hnone by (by repeat constructor).
  split; [exact H|]. split.
  - refine (proj1 (proj2 (enabling_condition_hides_earlier_fields [Scenario.Q0]
                            (mkDropdownField "G" "Group" ["A"; "B"] None None)
                            [Scenario.Q1] {["G" := VString "A"]} H Hnone)) _).
    intros x Hx. apply (inj Some) in Hx as <-. compute_done.
  - refine (proj1 (proj2 (proj2
              (enabling_condition_hides_earlier_fields [Scenario.Q0]
                 (mkDropdownField "G" "Group" ["A"; "B"] None None)
                 [Scenario.Q1] {["G" := VString "constructor"]} H Hnone)))
              "constructor" eq_refl _).
    compute_done.
Defined.

(** X15: choosing a target for an option in the dropdown editor and then
    choosing that option in the preview. After [setCondition(option,
    targetId)] on the first condition-carrying dropdown (ids unique, option
    and target non-empty), selecting the option makes the target the jump
    target and the resolver shows it; selecting any other option gives what
    the condition map gave before. *)
Theorem setCondition_selects_target (pre : list FormField) (d : DropdownField)
    (post : list FormField) (values : gmap string Value) (opt target : string) :
  NoDup (field_id <$> pre ++ Dropdown d :: post) →
  Forall (λ g, conditionOf g = None) pre →
  opt ≠ "" → target ≠ "" →
  Client.jumpTarget
    (Editor.updateFieldList (pre ++ Dropdown d :: post) (dropdown_id d)
       (Editor.setCondition d opt target))
    (Preview.handleChange values (dropdown_id d) (VString opt))
  = Some target
  ∧ target
    ∈ getVisibleFieldIds
        (Editor.updateFieldList (pre ++ Dropdown d :: post) (dropdown_id d)
           (Editor.setCondition d opt target))
        (Preview.handleChange values (dropdown_id d) (VString opt))
  ∧ ∀ other,
      other ≠ opt →
      Client.jumpTarget
        (Editor.updateFieldList (pre ++ Dropdown d :: post) (dropdown_id d)
           (Editor.setCondition d opt target))
        (Preview.handleChange values (dropdown_id d) (VString other))
      = selectedTarget (default ∅ (condition d)) (Some (VString other)).
Proof.
  intros Hnodup Hpre Hopt Htarget.
  rewrite (updateFieldList_unique pre (Dropdown d) post _ Hnodup).
  change (Editor.applyChanges (Dropdown d) (Editor.setCondition d opt target))
    with (Dropdown (mkDropdownField (dropdown_id d) (dropdown_label d)
                      (options d) (dropdown_validation d)
                      (Some (<[opt := target]> (default ∅ (condition d)))))).
  set (chosen := Dropdown (mkDropdownField _ _ _ _ _)).
  assert (∀ v, Client.jumpTarget (pre ++ chosen :: post)
                 (Preview.handleChange values (dropdown_id d) (VString v))
               = selectedTarget (<[opt := target]> (default ∅ (condition d)))
                   (Some (VString v))) as Hjt.
  { intros v.
    rewrite (jumpTarget_first pre chosen _ post _ Hpre eq_refl).
    unfold Preview.handleChange. simpl. by rewrite lookup_insert_eq. }
  assert (Client.jumpTarget (pre ++ chosen :: post)
            (Preview.handleChange values (dropdown_id d) (VString opt))
          = Some target) as Hselected.
  { rewrite Hjt. apply selectedTarget_string; [done| |done].
    apply lookup_insert_eq. }
  split; [exact Hselected|]. split; [by apply jumpTarget_shown|].
  intros other Hother. rewrite Hjt. unfold selectedTarget. simpl.
  by rewrite lookup_insert_ne.
Qed.

Lemma setCondition_selects_target_witness :
  NoDup (field_id <$> [] ++ Dropdown Scenario.E :: [Scenario.Q1; Scenario.Q2])
  ∧ getVisibleFieldIds
      (Editor.updateFieldList ([] ++ Dropdown Scenario.E :: [Scenario.Q1; Scenario.Q2])
         "E" (Editor.setCondition Scenario.E "No" "Q1"))
      (Preview.handleChange ∅ "E" (VString "No"))
    = ["E"; "Q1"; "Q2"]
  ∧ ("Q1" ∈ ["E"; "Q1"; "Q2"]).
Proof.
  assert (NoDup (field_id <$> [] ++ Dropdown Scenario.E :: [Scenario.Q1; Scenario.Q2]))
    as H by compute_done.
  split; [exact H|].
  assert (getVisibleFieldIds
            (Editor.updateFieldList
               ([] ++ Dropdown Scenario.E :: [Scenario.Q1; Scenario.Q2])
               "E" (Editor.setCondition Scenario.E "No" "Q1"))
            (Preview.handleChange ∅ "E" (VString "No"))
          = ["E"; "Q1"; "Q2"]) as Hvisible by (by vm_compute).
  split; [exact Hvisible|].
  rewrite <- Hvisible.
  apply (proj1 (proj2 (setCondition_selects_target [] Scenario.E
                         [Scenario.Q1; Scenario.Q2] ∅ "No" "Q1" H
                         (Forall_nil_2 _) ltac:(done) ltac:(done)))).
Defined.

(** X16: removing an option in the dropdown editor leaves the option's
    entry in the condition map. The entry's target stays a possible jump
    target, so its field is shown for no value map that does not select
    it: once the only option leading to a field is removed, no remaining
    choice shows the field. *)
Theorem removeOption_leaves_target_hidden (pre : list FormField)
    (d : DropdownField) (c : gmap string string) (post : list FormField)
    (index : nat) (opt t : string) :
  NoDup (field_id <$> pre ++ Dropdown d :: post) →
  Forall (λ g, conditionOf g = None) pre →
  condition d = Some c →
  c !! opt = Some t → t ≠ "" → t ≠ dropdown_id d →
  (t ∈ possibleJumpTargets
         (Editor.updateFieldList (pre ++ Dropdown d :: post) (dropdown_id d)
            (Editor.removeOption d index)))
  ∧ ∀ values,
      selectedTarget c (values !! dropdown_id d) ≠ Some t →
      t ∉ getVisibleFieldIds
            (Editor.updateFieldList (pre ++ Dropdown d :: post) (dropdown_id d)
               (Editor.removeOption d index))
            values.
Proof.
  intros Hnodup Hpre Hc Hopt Ht Hne.
  rewrite (updateFieldList_unique pre (Dropdown d) post _ Hnodup).
  change (Editor.applyChanges (Dropdown d) (Editor.removeOption d index))
    with (Dropdown (mkDropdownField (dropdown_id d) (dropdown_label d)
                      (delete index (options d)) (dropdown_validation d)
                      (condition d))).
  set (shortened := Dropdown (mkDropdownField _ _ _ _ _)).
  assert (conditionOf shortened = Some c) as Hshortened by done.
  assert (t ∈ possibleJumpTargets (pre ++ shortened :: post)) as Htarget.
  { rewrite possibleJumpTargets_app. simpl. rewrite Hc.
    apply elem_of_union_r, elem_of_union_l.
    unfold conditionTargets. apply elem_of_filter. split.
    - unfold JS.truthyString. by rewrite bool_decide_eq_false_2.
    - apply elem_of_map_img. eauto. }
  split; [exact Htarget|].
  intros values Hsel Hvisible.
  destruct (visible_cases _ values t Hvisible) as [Hd|[Hj|Hn]]; [| |done].
  - rewrite (jumpDropdownId_first pre shortened c post Hpre Hshortened) in Hd.
    simpl in Hd. congruence.
  - rewrite (jumpTarget_first pre shortened c post values Hpre Hshortened) in Hj.
    simpl in Hj. congruence.
Qed.

Lemma removeOption_leaves_target_hidden_witness :
  NoDup (field_id <$> [] ++ Dropdown Scenario.D :: [Scenario.Q1; Scenario.Q2])
  ∧ Editor.updateFieldList ([] ++ Dropdown Scenario.D :: [Scenario.Q1; Scenario.Q2])
      "D" (Editor.removeOption Scenario.D 0)
    = [Dropdown (mkDropdownField "D" "D" ["No"] None (Some {["Yes" := "Q2"]}));
       Scenario.Q1; Scenario.Q2]
  ∧ ("Q2" ∉ getVisibleFieldIds
              (Editor.updateFieldList
                 ([] ++ Dropdown Scenario.D :: [Scenario.Q1; Scenario.Q2])
                 "D" (Editor.removeOption Scenario.D 0))
              {["D" := VString "No"]}).
Proof.
  assert (NoDup (field_id <$> [] ++ Dropdown Scenario.D :: [Scenario.Q1; Scenario.Q2]))
    as H by compute_done.
  split; [exact H|]. split; [by vm_compute|].
  apply (proj2 (removeOption_leaves_target_hidden [] Scenario.D {["Yes" := "Q2"]}
                  [Scenario.Q1; Scenario.Q2] 0 "Yes" "Q2" H (Forall_nil_2 _)
                  eq_refl eq_refl ltac:(done) ltac:(done))).
  by vm_compute.
Defined.

(** * The endpoints *)

(** X17: submitting a response. The answer is 201 exactly when the form
    exists and the server-side validator returns no error; the response is
    then the last one listed for the form. In every other case (404, 400
    with the errors, 500 when the validator throws) the database is
    unchanged. A submission never changes the stored forms nor the
    responses listed for another form. *)
Theorem postResponse_stores_valid (db : Api.Database) (id : string)
    (data : gmap string Value) :
  (Api.status (Api.postResponse db id data).1 = 201
   ↔ ∃ form, Api.forms db !! id = Some form
             ∧ Server.validateResponse form data = Some [])
  ∧ (Api.status (Api.postResponse db id data).1 = 201 →
     ∀ listed,
       Api.getResponses db id = Api.mkResponse 200 (Api.BResponses listed) →
       Api.getResponses (Api.postResponse db id data).2 id
       = Api.mkResponse 200 (Api.BResponses (listed ++ [data])))
  ∧ (Api.status (Api.postResponse db id data).1 ≠ 201 →
     (Api.postResponse db id data).2 = db)
  ∧ Api.forms (Api.postResponse db id data).2 = Api.forms db
  ∧ ∀ other, other ≠ id →
             Api.getResponses (Api.postResponse db id data).2 other
             = Api.getResponses db other.
Proof.
  unfold Api.postResponse.
  destruct (Api.forms db !! id) as [form|] eqn:Hform.
  - destruct (Server.validateResponse form data) as [[|e errs]|] eqn:Hvalid; simpl.
    + split; [split; [by eauto | done]|].
      split; [|split; [done|split; [done|]]].
      * intros _ listed [= <-]. unfold Api.getResponses. simpl. do 2 f_equal.
        rewrite filter_app, fmap_app. f_equal.
        by rewrite filter_cons_True.
      * intros other Hother. unfold Api.getResponses. simpl. do 2 f_equal.
        rewrite filter_app, filter_cons_False, filter_nil, app_nil_r; [done|].
        simpl. congruence.
    + split; [split; [done|]|by repeat split].
      intros (form' & [= <-] & Hnil). congruence.
    + split; [split; [done|]|by repeat split].
      intros (form' & [= <-] & Hnil). congruence.
  - simpl. split; [split; [done|]|by repeat split].
    by intros (form & ? & _).
Qed.

Lemma postResponse_stores_valid_witness :
  Api.status
    (Api.postResponse
       (Api.mkDatabase {["f" := mkFormSchema (Some "f") "Survey" [Scenario.Q0]]} [])
       "f" ∅).1 = 201
  ∧ Api.getResponses
      (Api.postResponse
         (Api.mkDatabase {["f" := mkFormSchema (Some "f") "Survey" [Scenario.Q0]]} [])
         "f" ∅).2 "f"
    = Api.mkResponse 200 (Api.BResponses ([] ++ [∅])).
Proof.
  split; [done|].
  exact (proj1 (proj2 (postResponse_stores_valid
                         (Api.mkDatabase
                            {["f" := mkFormSchema (Some "f") "Survey" [Scenario.Q0]]} [])
                         "f" ∅))
           eq_refl [] eq_refl).
Defined.

(** X18: deleting a form removes the form only. Its responses stay in the
    table and are still listed for its id, for which no form can be read
    and no further response is accepted; clearing the responses of a form
    is the separate endpoint, which empties the form's list and touches
    neither the forms nor the other lists. *)
Theorem deleteForm_keeps_responses (db : Api.Database) (id : string) :
  Api.getForm (Api.deleteForm db id).2 id
  = Api.mkResponse 404 (Api.BError "Form not found")
  ∧ (∀ other, Api.getResponses (Api.deleteForm db id).2 other
              = Api.getResponses db other)
  ∧ (∀ data, Api.postResponse (Api.deleteForm db id).2 id data
             = (Api.mkResponse 404 (Api.BError "Form not found"),
                (Api.deleteForm db id).2))
  ∧ (∀ other, other ≠ id → Api.getForm (Api.deleteForm db id).2 other
                           = Api.getForm db other)
  ∧ Api.getResponses (Api.deleteResponses db id).2 id
    = Api.mkResponse 200 (Api.BResponses [])
  ∧ Api.forms (Api.deleteResponses db id).2 = Api.forms db
  ∧ ∀ other, other ≠ id →
             Api.getResponses (Api.deleteResponses db id).2 other
             = Api.getResponses db other.
Proof.
  split; [|split; [|split; [|split; [|split; [|split]]]]].
  - unfold Api.getForm. simpl. by rewrite lookup_delete_eq.
  - done.
  - intros data. unfold Api.postResponse. simpl. by rewrite lookup_delete_eq.
  - intros other Hother. unfold Api.getForm. simpl.
    by rewrite lookup_delete_ne.
  - unfold Api.getResponses. simpl. do 2 f_equal.
    rewrite list_filter_filter. induction (Api.responses db) as [|r l IH]; [done|].
    rewrite filter_cons_False; [done|]. by intros [? ?].
  - done.
  - intros other Hother. unfold Api.getResponses. simpl. do 2 f_equal.
    rewrite list_filter_filter. f_equal. apply list_filter_iff. intros r.
    split; [by intros [? _]|]. intros Hr. split; [done|]. congruence.
Qed.

Lemma deleteForm_keeps_responses_witness :
  Api.getResponses
    (Api.deleteForm
       (Api.mkDatabase {["f" := mkFormSchema (Some "f") "Survey" [Scenario.Q0]]}
          [("f", ∅)])
       "f").2 "f"
  = Api.mkResponse 200 (Api.BResponses [∅])
  ∧ Api.getForm
      (Api.deleteForm
         (Api.mkDatabase {["f" := mkFormSchema (Some "f") "Survey" [Scenario.Q0]]}
            [("f", ∅)])
         "f").2 "f"
    = Api.mkResponse 404 (Api.BError "Form not found").
Proof.
  split.
  - exact (proj1 (proj2 (deleteForm_keeps_responses
                           (Api.mkDatabase
                              {["f" := mkFormSchema (Some "f") "Survey" [Scenario.Q0]]}
                              [("f", ∅)])
                           "f")) "f").
  - exact (proj1 (deleteForm_keeps_responses
                    (Api.mkDatabase
                       {["f" := mkFormSchema (Some "f") "Survey" [Scenario.Q0]]}
                       [("f", ∅)])
                    "f")).
Defined.

(** X19: creating, reading and replacing a form. A form posted under a
    fresh id is read back with that id; a post under an id in use is
    answered 500 and changes nothing. A put always answers 200 with the
    form carrying the id of the URL, but stores it only when a form with
    that id exists: a put to an unknown id stores nothing and the form
    still cannot be read. Forms under other ids are never affected. *)
Theorem form_store_round_trip (db : Api.Database) (id : string)
    (reqBody : FormSchema) :
  (Api.forms db !! id = None →
   Api.getForm (Api.postForm db id reqBody).2 id
   = Api.mkResponse 200 (Api.BForm (Api.withId reqBody id))
   ∧ Api.getForm (Api.putForm db id reqBody).2 id
     = Api.mkResponse 404 (Api.BError "Form not found")
   ∧ (Api.putForm db id reqBody).2 = db)
  ∧ (is_Some (Api.forms db !! id) →
     Api.postForm db id reqBody
     = (Api.mkResponse 500 (Api.BError "Database error"), db)
     ∧ Api.getForm (Api.putForm db id reqBody).2 id
       = Api.mkResponse 200 (Api.BForm (Api.withId reqBody id)))
  ∧ (Api.putForm db id reqBody).1
    = Api.mkResponse 200 (Api.BForm (Api.withId reqBody id))
  ∧ ∀ other, other ≠ id →
             Api.getForm (Api.postForm db id reqBody).2 other = Api.getForm db other
             ∧ Api.getForm (Api.putForm db id reqBody).2 other
               = Api.getForm db other.
Proof.
  split; [|split; [|split]].
  - intros Hfresh. unfold Api.postForm, Api.putForm, Api.getForm.
    rewrite Hfresh. simpl. rewrite lookup_insert_eq, Hfresh.
    split; [done|]. split; [done|]. by destruct db.
  - intros [form Hform]. unfold Api.postForm, Api.putForm, Api.getForm.
    rewrite Hform. simpl. by rewrite lookup_insert_eq.
  - done.
  - intros other Hother. unfold Api.postForm, Api.putForm, Api.getForm.
    destruct (Api.forms db !! id); simpl; by rewrite ?lookup_insert_ne.
Qed.

Lemma form_store_round_trip_witness :
  Api.forms (Api.mkDatabase ∅ []) !! "f" = None
  ∧ Api.getForm
      (Api.postForm (Api.mkDatabase ∅ []) "f"
         (mkFormSchema None "Survey" Scenario.branching)).2 "f"
    = Api.mkResponse 200
        (Api.BForm (mkFormSchema (Some "f") "Survey" Scenario.branching)).
Proof.
  split; [done|].
  exact (proj1 (proj1 (form_store_round_trip (Api.mkDatabase ∅ []) "f"
                         (mkFormSchema None "Survey" Scenario.branching))
                  eq_refl)).
Defined.

(** * Adding a row *)

(** X20: a new row of a dynamic table starts empty. After Add Row on a
    visible table, each column whose required rule is in force gets the
    message "... row n is required." for the new row, n being the new
    number of rows; the form cannot be submitted until the row is filled. *)
Theorem addRow_requires_cells (t : TableField) (col : TableColumn)
    (jumpTargetId : option string) (visibleFieldIds : list string)
    (values : gmap string Value) :
  table_id t ∈ visibleFieldIds →
  col ∈ columns t →
  Client.effectiveRequired jumpTargetId (list_to_set visibleFieldIds)
    (table_id t) (col_validation col ≫= required) = true →
  ∃ errs,
    Client.fieldErrors jumpTargetId (list_to_set visibleFieldIds)
      (Preview.handleChange values (table_id t)
         (Preview.handleAddRow (values !! table_id t)))
      (Table t)
    = Some errs
    ∧ col_label col +:+ " in " +:+ table_label t +:+ " row "
      +:+ pretty (match values !! table_id t with
                  | Some (VRows rows) => length rows
                  | _ => 0%nat
                  end + 1)%nat
      +:+ " is required."
      ∈ errs.
Proof.
  intros Hvisible Hcol Hreq.
  unfold Client.fieldErrors, Preview.handleChange, Preview.handleAddRow. simpl.
  visible_field. rewrite lookup_insert_eq.
  eexists. split; [done|].
  set (rows := match values !! table_id t with
               | Some (VRows rows) => rows
               | _ => []
               end).
  assert (match values !! table_id t with
          | Some (VRows rows) => length rows
          | _ => 0%nat
          end = length rows) as ->.
  { subst rows. by destruct (values !! table_id t) as [[s|rows]|]. }
  unfold Client.tableErrors.
  eapply (elem_of_concat_imap _ _ (length rows) ∅);
    [by apply list_lookup_middle|].
  eapply elem_of_concat_fmap; [exact Hcol|].
  rewrite Hreq. unfold Client.cellErrors, Client.cellPrefix.
  rewrite lookup_empty. simpl.
  destruct (col_type col).
  - apply elem_of_app. left. simpl. rewrite !string_app_assoc.
    apply list_elem_of_here.
  - rewrite !elem_of_app. do 3 right. left. simpl.
    rewrite !string_app_assoc. apply list_elem_of_here.
Qed.

Lemma addRow_requires_cells_witness :
  (table_id Scenario.items ∈ ["T"])
  ∧ (Scenario.kind ∈ columns Scenario.items)
  ∧ ∃ errs,
      Client.fieldErrors None (list_to_set ["T"])
        (Preview.handleChange {["T" := VRows [{["c" := "A"]}]]} "T"
           (Preview.handleAddRow
              (({["T" := VRows [{["c" := "A"]}]]} : gmap string Value) !! "T")))
        (Table Scenario.items)
      = Some errs
      ∧ "Kind in Items row 2 is required." ∈ errs.
Proof.
  assert (table_id Scenario.items ∈ ["T"]) as H1 by compute_done.
  assert (Scenario.kind ∈ columns Scenario.items) as H2
    by (apply list_elem_of_here).
  split; [exact H1|]. split; [exact H2|].
  exact (addRow_requires_cells Scenario.items Scenario.kind None ["T"]
           {["T" := VRows [{["c" := "A"]}]]} H1 H2 eq_refl).
Defined.

(** * Adding fields and options in the editor *)

Section Adding.
Implicit Types (fs : list FormField) (d : DropdownField).

Lemma validateForm_snoc title fs f :
  Editor.validateForm title (fs ++ [f])
  = Editor.validateForm title fs ++ Editor.fieldErrors (length fs) f.
Proof.
  unfold Editor.validateForm. rewrite imap_app, concat_app. simpl.
  by rewrite app_nil_r, Nat.add_0_r, app_assoc.
Qed.

Lemma rev_app_nonempty s acc : acc ≠ "" → String.rev_app s acc ≠ "".
Proof.
  revert acc. induction s as [|a s IH]; intros acc Hacc; [done|].
  simpl. by apply IH.
Qed.

Lemma rev_app_nonempty_l s acc : s ≠ "" → String.rev_app s acc ≠ "".
Proof.
  destruct s as [|a s]; [done|]. intros _. simpl. by apply rev_app_nonempty.
Qed.

Lemma trimStart_rev_app_nonempty s acc :
  JS.trimStart acc ≠ "" → JS.trimStart (String.rev_app s acc) ≠ "".
Proof.
  revert acc. induction s as [|b s IH]; intros acc Hacc; [done|].
  simpl. apply IH. simpl. by destruct (Ascii.is_space b).
Qed.

(** A string that starts with a character other than white space is not
    blank. *)
Lemma nonBlank_cons a s : Ascii.is_space a = false → nonBlank (String a s).
Proof.
  intros Ha. unfold nonBlank, JS.trim, String.rev.
  apply rev_app_nonempty_l. simpl. rewrite Ha. simpl.
  apply trimStart_rev_app_nonempty. simpl. by rewrite Ha.
Qed.

Lemma fieldWellFormed_options fs d opts :
  opts ≠ [] → Forall nonBlank opts →
  Forall fieldWellFormed fs →
  Forall fieldWellFormed
    (Editor.updateFieldList fs (dropdown_id d) (Editor.ChOptions opts)).
Proof.
  intros Hne Hopts Hall. unfold Editor.updateFieldList.
  apply Forall_fmap. eapply Forall_impl; [exact Hall|].
  intros f [Hlabel Hshape]. simpl.
  destruct (decide (field_id f = dropdown_id d)); [|done].
  by destruct f as [t|d'|t].
Qed.

End Adding.

(** X21: adding a field in the editor. A new text or dropdown field brings
    no message of [validateForm]: the form is accepted as before, and Save
    is enabled as soon as the form was free of errors, also when the field
    is the first one. A new table has no column: it adds the message that
    the table must have at least one column, Save is disabled and
    [handleSave] hands nothing over until a column is added. *)
Theorem addField_effect_on_save (title : string) (fs : list FormField)
    (id : string) (type : Editor.FieldType) :
  (type ≠ Editor.TypeTable →
   Editor.validateForm title (Editor.addField fs id type)
   = Editor.validateForm title fs
   ∧ (Editor.validateForm title fs = [] →
      Editor.saveEnabled title (Editor.addField fs id type) = true))
  ∧ Editor.validateForm title (Editor.addField fs id Editor.TypeTable)
    = Editor.validateForm title fs
      ++ ["Table 'Untitled Table' must have at least one column."]
  ∧ Editor.saveEnabled title (Editor.addField fs id Editor.TypeTable) = false
  ∧ Editor.handleSave title (Editor.addField fs id Editor.TypeTable) = None.
Proof.
  assert (Editor.validateForm title (Editor.addField fs id Editor.TypeTable)
          = Editor.validateForm title fs
            ++ ["Table 'Untitled Table' must have at least one column."])
    as Htable.
  { unfold Editor.addField. by rewrite validateForm_snoc. }
  split; [|split; [exact Htable|split]].
  - intros Htype.
    assert (Editor.validateForm title (Editor.addField fs id type)
            = Editor.validateForm title fs) as Hsame.
    { unfold Editor.addField. rewrite validateForm_snoc.
      destruct type; [| |done]; apply app_nil_r. }
    split; [exact Hsame|]. intros Hvalid.
    unfold Editor.saveEnabled. rewrite Hsame, Hvalid.
    rewrite andb_true_r, wellFormed_isFormValid.
    + apply bool_decide_eq_true. unfold Editor.addField. by destruct fs.
    + apply validateForm_nil with title. by rewrite Hsame.
  - unfold Editor.saveEnabled. rewrite Htable.
    apply andb_false_intro2, bool_decide_eq_false.
    by destruct (Editor.validateForm title fs).
  - unfold Editor.handleSave. rewrite Htable.
    by destruct (Editor.validateForm title fs).
Qed.

Lemma addField_effect_on_save_witness :
  Editor.TypeDropdown ≠ Editor.TypeTable
  ∧ Editor.validateForm "Survey" [] = []
  ∧ Editor.saveEnabled "Survey" (Editor.addField [] "1" Editor.TypeDropdown) = true.
Proof.
  assert (Editor.TypeDropdown ≠ Editor.TypeTable) as H1 by done.
  assert (Editor.validateForm "Survey" [] = []) as H2 by (by vm_compute).
  split; [exact H1|]. split; [exact H2|].
  exact (proj2 (proj1 (addField_effect_on_save "Survey" [] "1"
                         Editor.TypeDropdown) H1) H2).
Defined.

(** X22: Add Option and Remove keep an accepted form accepted. When
    [validateForm] returns no error for a form that holds the dropdown,
    it returns none after [addOption], whose new option is
    "Option n" with n the new number of options, and none after
    [removeOption] on a dropdown with more than one option, which is when
    the editor offers the Remove button. *)
Theorem option_edits_keep_form_valid (title : string) (fs : list FormField)
    (d : DropdownField) (index : nat) :
  Dropdown d ∈ fs →
  Editor.validateForm title fs = [] →
  Editor.validateForm title
    (Editor.updateFieldList fs (dropdown_id d) (Editor.addOption d)) = []
  ∧ ((1 < length (options d))%nat →
     Editor.validateForm title
       (Editor.updateFieldList fs (dropdown_id d) (Editor.removeOption d index))
     = []).
Proof.
  intros Hd [Htitle Hall]%validateForm_nil.
  assert (options d ≠ [] ∧ Forall nonBlank (options d)) as [Hne Hopts].
  { rewrite Forall_forall in Hall. by destruct (Hall _ Hd) as [_ ?]. }
  split.
  - apply validateForm_nil. split; [done|].
    apply fieldWellFormed_options; [by destruct (options d)| |done].
    apply Forall_app. split; [done|]. apply Forall_singleton.
    change ("Option " +:+ ?s) with (String "O" ("ption " +:+ s)).
    by apply nonBlank_cons.
  - intros Hlen. apply validateForm_nil. split; [done|].
    apply fieldWellFormed_options; [| |done].
    + intros Hnil. apply (f_equal length) in Hnil.
      rewrite delete_take_drop, length_app, length_take, length_drop in Hnil.
      simpl in Hnil. lia.
    + by apply Forall_delete.
Qed.

Lemma option_edits_keep_form_valid_witness :
  (Dropdown Scenario.D ∈ Scenario.branching)
  ∧ Editor.validateForm "Survey" Scenario.branching = []
  ∧ Editor.validateForm "Survey"
      (Editor.updateFieldList Scenario.branching "D"
         (Editor.addOption Scenario.D)) = []
  ∧ Editor.validateForm "Survey"
      (Editor.updateFieldList Scenario.branching "D"
         (Editor.removeOption Scenario.D 0)) = [].
Proof.
  assert (Dropdown Scenario.D ∈ Scenario.branching) as H1
    by (apply list_elem_of_here).
  assert (Editor.validateForm "Survey" Scenario.branching = []) as H2
    by (by vm_compute).
  split; [exact H1|]. split; [exact H2|].
  destruct (option_edits_keep_form_valid "Survey" Scenario.branching
              Scenario.D 0 H1 H2) as [Hadd Hremove].
  split; [exact Hadd|]. apply Hremove. simpl. lia.
Defined.

(** * Length rules of table cells on the server *)

(** X23: the server-side validator never applies [minLength] or
    [maxLength] to a table cell: its result is the same for the form whose
    columns have lost both bounds. The client-side validator applies them:
    for a visible table, a cell of a text column that is shorter than the
    column's minimum makes it push the message of the minimum length, so
    such a response is refused by the client and can be accepted by the
    server. *)
Theorem server_skips_cell_length_rules (form : FormSchema)
    (values : gmap string Value) :
  Server.validateResponse
    (mkFormSchema (form_id form) (title form) (withoutCellBounds <$> fields form))
    values
  = Server.validateResponse form values
  ∧ ∀ jumpTargetId (visibleFieldIds : list string) t rows rowIdx row col n s,
      table_id t ∈ visibleFieldIds →
      values !! table_id t = Some (VRows rows) →
      rows !! rowIdx = Some row → col ∈ columns t →
      col_type col = ColText →
      col_validation col ≫= minLength = Some n →
      row !! col_id col = Some s →
      Z.of_nat (String.length s) < n →
      ∃ errs,
        Client.fieldErrors jumpTargetId (list_to_set visibleFieldIds) values
          (Table t) = Some errs
        ∧ col_label col +:+ " in " +:+ table_label t +:+ " row "
          +:+ pretty (rowIdx + 1)%nat +:+ " must be at least " +:+ pretty n
          +:+ " characters."
          ∈ errs.
Proof.
  split.
  - assert (∀ f, Server.fieldErrors values (withoutCellBounds f)
                 = Server.fieldErrors values f) as Hfield.
    { intros [tf|d|t]; try done.
      unfold Server.fieldErrors. simpl.
      destruct (values !! table_id t) as [[s|rows]|]; try done. simpl.
      unfold Server.labelErrors, Server.tableErrors. simpl.
      do 3 f_equal. apply list_fmap_ext. intros i row _.
      f_equal. rewrite <- list_fmap_compose. apply list_fmap_ext.
      intros j col _. unfold Server.cellErrors. simpl.
      by destruct (col_validation col). }
    unfold Server.validateResponse. simpl fields. f_equal.
    induction (fields form) as [|f fs IH]; [done|].
    rewrite fmap_cons.
    change (mapM (Server.fieldErrors values)
              (withoutCellBounds f :: (withoutCellBounds <$> fs)))
      with (y ← Server.fieldErrors values (withoutCellBounds f);
            k ← mapM (Server.fieldErrors values) (withoutCellBounds <$> fs);
            mret (y :: k)).
    by rewrite IH, Hfield.
  - intros jt vis t rows rowIdx row col n s
      Hvisible Hrows Hrow Hcol Htext Hmin Hcell Hshort.
    unfold Client.fieldErrors. simpl. visible_field. rewrite Hrows.
    eexists. split; [done|].
    unfold Client.tableErrors.
    eapply (elem_of_concat_imap _ _ rowIdx row); [done|].
    eapply elem_of_concat_fmap; [exact Hcol|].
    unfold Client.cellErrors, Client.cellPrefix. rewrite Hmin, Hcell, Htext.
    simpl. unfold JS.truthyNumber.
    replace (n =? 0) with false by (symmetry; apply Z.eqb_neq; lia).
    replace (Z.of_nat (String.length s) <? n) with true
      by (symmetry; by apply Z.ltb_lt).
    simpl. apply elem_of_app. right.
    rewrite !string_app_assoc. apply list_elem_of_here.
Qed.

Lemma server_skips_cell_length_rules_witness :
  Client.fieldErrors None (list_to_set ["K"]) {["K" := VRows [{["k" := "ab"]}]]}
    (Table Scenario.codes)
  = Some ["Code in Codes row 1 must be at least 3 characters."]
  ∧ Server.validateResponse (mkFormSchema None "form" [Table Scenario.codes])
      {["K" := VRows [{["k" := "ab"]}]]}
    = Some []
  ∧ ∃ errs,
      Client.fieldErrors None (list_to_set ["K"])
        {["K" := VRows [{["k" := "ab"]}]]} (Table Scenario.codes)
      = Some errs
      ∧ "Code in Codes row 1 must be at least 3 characters." ∈ errs.
Proof.
  split; [by vm_compute|]. split; [by vm_compute|].
  exact (proj2 (server_skips_cell_length_rules
                  (mkFormSchema None "form" [Table Scenario.codes])
                  {["K" := VRows [{["k" := "ab"]}]]})
           None ["K"] Scenario.codes [{["k" := "ab"]}] 0%nat {["k" := "ab"]}
           Scenario.code 3 "ab"
           ltac:(compute_done) eq_refl eq_refl ltac:(apply list_elem_of_here)
           eq_refl eq_refl eq_refl ltac:(simpl; lia)).
Defined.

(** * Options named like members of [Object.prototype] *)

(** X24: what the resolver reads from the condition object. As long as the
    branching dropdown's value does not name a member of
    [Object.prototype], the list computed over the own properties of the
    condition map is the list the code returns. When the value names such
    a member and the condition map has no option of that name, the code
    takes the inherited member as jump target: it pushes the dropdown's id,
    then the member, and since the member is the id of no field it scans
    the whole form from the top, listing every field that is no target of
    a condition map, the dropdown a second time included. *)
Theorem resolver_reads_inherited_members (fs : list FormField)
    (values : gmap string Value) :
  ((∀ id x, jumpDropdownId fs = Some id → values !! id = Some x →
            JS.toPropertyKey x ∉ Proto.members) →
   Proto.getVisibleFieldIds fs values
   = Proto.PushedId <$> getVisibleFieldIds fs values)
  ∧ ∀ pre f c post key,
      fs = pre ++ f :: post →
      Forall (λ g, conditionOf g = None) pre →
      conditionOf f = Some c →
      values !! field_id f = Some (VString key) →
      key ∈ Proto.members → c !! key = None →
      ∃ possibleTargets : gset string,
        (∀ id, id ∈ possibleTargets ↔ isConditionTarget fs id)
        ∧ Proto.getVisibleFieldIds fs values
          = Proto.PushedId (field_id f) :: Proto.PushedMember key
            :: (Proto.PushedId <$>
                  (field_id <$> filter (λ g, field_id g ∉ possibleTargets) fs)).
Proof.
  split; [apply proto_agrees|].
  intros pre f c post key -> Hpre Hf Hvalue Hkey Hc.
  exists (possibleJumpTargets (pre ++ f :: post)).
  split; [intros id; apply elem_of_possibleJumpTargets|].
  exact (proto_member pre f c post values (VString key) Hpre Hf Hvalue
           (proto_members_truthy key Hkey) Hc Hkey).
Qed.

Lemma resolver_reads_inherited_members_witness :
  getVisibleFieldIds Scenario.branching {["D" := VString "constructor"]}
  = ["D"; "Q1"]
  ∧ Proto.getVisibleFieldIds Scenario.branching {["D" := VString "constructor"]}
    = [Proto.PushedId "D"; Proto.PushedMember "constructor";
       Proto.PushedId "D"; Proto.PushedId "Q1"]
  ∧ Proto.getVisibleFieldIds Scenario.branching {["D" := VString "Yes"]}
    = [Proto.PushedId "D"; Proto.PushedId "Q2"].
Proof.
  split; [by vm_compute|]. split.
  - destruct (proj2 (resolver_reads_inherited_members Scenario.branching
                       {["D" := VString "constructor"]})
                [] (Dropdown Scenario.D) {["Yes" := "Q2"]}
                [Scenario.Q1; Scenario.Q2] "constructor"
                eq_refl (Forall_nil_2 _) eq_refl ltac:(by vm_compute)
                ltac:(compute_done) ltac:(by vm_compute))
      as (targets & Htargets & ->).
    assert (targets = possibleJumpTargets Scenario.branching) as ->.
    { apply set_eq. intros id. rewrite Htargets. symmetry.
      apply elem_of_possibleJumpTargets. }
    by vm_compute.
  - rewrite (proj1 (resolver_reads_inherited_members Scenario.branching
                      {["D" := VString "Yes"]})); [by vm_compute|].
    intros id x [= <-] [= <-]. compute_done.
Defined.
